(** * Oregon Scientific V3 THGN801 emulation: checksums, payload, modulator, scheduler

    Shallow embedding of [oregon-thgn801.ino] (Arduino Uno, AVR).

    - [uint8_t] and [uint32_t] values are integers of [Z] kept in range by
      an explicit [mod] at every assignment;
    - a [uint8_t *] buffer is a [list Z] read with stdpp's lookup; a read
      outside the list has no defined result and yields [None];
    - [float] is IEEE-754 binary32 (on AVR [double] is the same format),
      taken from the kernel's [SpecFloat] with precision 24;
    - the clock ([millis], [micros]) and the RF pin are a world that the
      stateful functions thread through a state-and-error monad. *)

From Stdlib Require Import ZArith List Lia Bool.
From Stdlib Require Import Floats.SpecFloat.
From stdpp Require Import base option list.
Import ListNotations.
Local Open Scope Z_scope.

(** ** Fixed-width integers *)

Definition u8 (z : Z) : Z := z mod 256.
Definition u32 (z : Z) : Z := z mod 4294967296.

Definition is_u8 (z : Z) : Prop := 0 <= z < 256.

(** The largest value of an AVR [int] (16 bits). *)
Definition INT_MAX : Z := 32767.

(** ** Configuration constants ([#define]s of the sketch) *)

Definition RF433_TX_PIN : Z := 6.
Definition V3_CHANNEL : Z := 1.
Definition V3_PAYLOAD_NIBBLES : Z := 15.
Definition V3_TX_INTERVAL_SECS : Z := 53.
Definition V3_TX_BYTES : nat := 13.
Definition V3_PULSE_LENGHT_US : Z := 488.
Definition V3_PULSE_SHORTEN_US : Z := 134.

(** A buffer of [V3_TX_BYTES] bytes. *)
Definition is_buffer (payload : list Z) : Prop :=
  length payload = V3_TX_BYTES /\ Forall is_u8 payload.

(** ** ChecksumEngine *)

(** The closing expression of both checksums:
    [((x & 0x0F) << 4) | ((x & 0xF0) >> 4)]. *)
Definition swap_return (x : Z) : Z :=
  u8 (Z.lor (Z.shiftl (Z.land x 0x0F) 4) (Z.shiftr (Z.land x 0xF0) 4)).

(** One pass of the inner [for (j = 0; j < 4; j++)] loop of
    [crc8_checksum_v3]. *)
Definition crc8_bit (crc : Z) : Z :=
  if negb (Z.land crc 0x80 =? 0)
  then u8 (Z.lxor (Z.shiftl crc 1) 0x07)
  else u8 (Z.shiftl crc 1).

(** The outer loop of [crc8_checksum_v3]. The counter [i] is a [uint8_t]:
    [i++] wraps at 256. [fuel] bounds the number of iterations. *)
Fixpoint crc8_loop (fuel : nat) (payload : list Z) (payloadNibbles i crc : Z)
  : option Z :=
  match fuel with
  | O => None
  | S fuel' =>
      if i <=? payloadNibbles + 7 then
        crc1 ← (if i <? payloadNibbles + 7 then
                  b ← payload !! Z.to_nat (Z.quot i 2);
                  if Z.rem i 2 =? 0
                  then Some (u8 (Z.lxor crc (Z.shiftr b 4)))
                  else Some (u8 (Z.lxor crc (Z.land b 0x0F)))
                else Some crc);
        crc8_loop fuel' payload payloadNibbles (u8 (i + 1))
                  (Nat.iter 4 crc8_bit crc1)
      else Some crc
  end.

(** A [uint8_t] counter takes 256 values: a loop that has not left after
    257 tests of its condition never leaves. *)
Definition u8_loop_fuel : nat := 257.

(** [uint8_t crc8_checksum_v3(uint8_t *payload, uint8_t payloadNibbles)] *)
Definition crc8_checksum_v3 (payload : list Z) (payloadNibbles : Z) : option Z :=
  crc ← crc8_loop u8_loop_fuel payload payloadNibbles 7 0x00;
  Some (swap_return crc).

(** The [for] loop of [oregon_checksum_v3]; [bound] is the value of
    [(28 + payloadNibbles*4) / 8]. *)
Fixpoint oregon_loop (fuel : nat) (payload : list Z) (bound i checksum : Z)
  : option Z :=
  match fuel with
  | O => None
  | S fuel' =>
      if i <? bound then
        b ← payload !! Z.to_nat i;
        oregon_loop fuel' payload bound (u8 (i + 1))
                    (u8 (checksum + (Z.shiftr b 4 + Z.land b 0xF)))
      else Some checksum
  end.

(** [uint8_t oregon_checksum_v3(uint8_t *payload, int payloadNibbles)].
    [/] and [%] of C truncate towards zero ([Z.quot], [Z.rem]); an index
    below zero is outside the buffer. *)
Definition oregon_checksum_v3 (payload : list Z) (payloadNibbles : Z) : option Z :=
  b3 ← payload !! 3%nat;
  let checksum := Z.land b3 0xF in
  let bound := Z.quot (28 + payloadNibbles * 4) 8 in
  checksum ← oregon_loop u8_loop_fuel payload bound 4 checksum;
  checksum ← (if Z.rem payloadNibbles 2 =? 0 then
                if bound <? 0 then None
                else
                  b ← payload !! Z.to_nat bound;
                  Some (u8 (checksum + Z.shiftr b 4))
              else Some checksum);
  Some (swap_return checksum).

(** ** Floating point: IEEE-754 binary32 *)

Definition prec : Z := 24.
Definition emax : Z := 128.

Definition float : Type := spec_float.

(** An integer constant converted to [float]. *)
Definition float_of_Z (z : Z) : float := binary_normalize prec emax z 0 false.

Definition fmul : float -> float -> float := SFmul prec emax.
Definition fadd : float -> float -> float := SFadd prec emax.
Definition fsub : float -> float -> float := SFsub prec emax.
Definition fdiv : float -> float -> float := SFdiv prec emax.
Definition fltb : float -> float -> bool := SFltb.
Definition fopp : float -> float := SFopp.

(** The decimal literal [num / den] with [num] and [den] below [2^24]:
    both are exact in binary32, so the correctly rounded quotient is the
    float nearest to the decimal. *)
Definition float_lit (num den : Z) : float :=
  fdiv (float_of_Z num) (float_of_Z den).

(** Arduino's [#define abs(x) ((x)>0?(x):-(x))]. *)
Definition abs (x : float) : float :=
  if fltb (float_of_Z 0) x then x else fopp x.

(** The integer part of a finite float (truncation towards zero). *)
Definition float_trunc (x : float) : option Z :=
  match x with
  | S754_zero _ => Some 0
  | S754_finite s m e =>
      let a := if 0 <=? e then Z.pos m * 2 ^ e else Z.pos m / 2 ^ (- e) in
      Some (if s then - a else a)
  | _ => None
  end.

(** Conversion of a float to an unsigned integer of [bits] bits; C leaves
    the conversion undefined when the integer part does not fit. *)
Definition float_to_uint (bits : Z) (x : float) : option Z :=
  z ← float_trunc x;
  if (0 <=? z) && (z <? 2 ^ bits) then Some z else None.

(** The temperature [k / 10] degrees as a [float], for [k] tenths. *)
Definition float_of_tenths (k : Z) : float := float_lit k 10.

(** ** PayloadBuilder *)

(** [memset(payload, c, n)] *)
Definition memset (payload : list Z) (c : Z) (n : nat) : list Z :=
  replicate (Nat.min n (length payload)) c ++ drop n payload.

(** [payload[i] |= v] *)
Definition or_at (i : nat) (v : Z) (payload : list Z) : list Z :=
  alter (fun b => u8 (Z.lor b v)) i payload.

(** [t10 = abs(tempC * 10.001)] with [uint16_t t10]. *)
Definition t10_of (tempC : float) : option Z :=
  float_to_uint 16 (abs (fmul tempC (float_lit 10001 1000))).

(** [uint8_t *payload_thgn801(uint8_t rollingCode, float tempC, uint8_t hum)] *)
Definition payload_thgn801 (rollingCode : Z) (tempC : float) (hum : Z)
  : option (list Z) :=
  let payload := replicate V3_TX_BYTES 0 in
  let payload := memset payload 0 V3_TX_BYTES in
  let payload := memset payload 0xFF 3 in
  let payload := <[3%nat := 0xA0]> payload in
  let payload := or_at 3 0x0F payload in
  let payload := <[4%nat := 0x82]> payload in
  let payload := <[5%nat := 0x40]> payload in
  let payload := or_at 5 (if V3_CHANNEL >? 15 then 15 else V3_CHANNEL) payload in
  let payload := <[6%nat := rollingCode]> payload in
  let payload := <[7%nat := 0x00]> payload in
  t10 ← t10_of tempC;
  let payload := or_at 7 (Z.land (Z.rem t10 10) 0x0F) payload in
  let payload :=
    <[8%nat := u8 (Z.lor (Z.shiftl (Z.rem (Z.quot t10 10) 10) 4)
                         (Z.land (Z.quot t10 100) 0x0F))]> payload in
  let payload :=
    <[9%nat := if fltb tempC (float_of_Z 0) then 0x80 else 0]> payload in
  let payload := or_at 9 (Z.land (Z.rem hum 10) 0x0F) payload in
  let payload :=
    <[10%nat := u8 (Z.shiftl (Z.rem (Z.quot hum 10) 10) 4)]> payload in
  c ← oregon_checksum_v3 payload V3_PAYLOAD_NIBBLES;
  let payload := <[11%nat := c]> payload in
  c ← crc8_checksum_v3 payload V3_PAYLOAD_NIBBLES;
  let payload := <[12%nat := c]> payload in
  Some payload.

(** ** The world: clock, RF pin and the static variables *)

Inductive level : Type := LOW | HIGH.

Inductive event : Type :=
| DigitalWrite (pin : Z) (v : level)
| DelayMicroseconds (us : Z).

Definition LED_BUILTIN : Z := 13.

(** The clock is an oracle: the [k]-th call of [micros()] (of [millis()])
    returns [micros_src k] (resp. [millis_src k]) as a [uint32_t]. Writes
    to pins and delays are recorded in [trace], oldest first. The remaining
    fields are the file-level and function-level [static] variables;
    [txMicros] is [None] until the first call of [manchester_encode_v3]
    runs its initialiser. [ram_after_payload] is the byte of RAM that
    follows the static buffer of [payload_thgn801]. *)
Record world : Type := World {
  micros_src : nat -> Z;
  millis_src : nat -> Z;
  micros_calls : nat;
  millis_calls : nat;
  trace : list event;
  ram_after_payload : Z;
  txMicros : option Z;
  seconds : Z;
  lastMillis : Z;
  lastTX : Z;
  tx_pending : bool;
  t_temp : float;
  t_hum : Z;
  rcode : Z
}.

(** State-and-error monad over the world. *)
Definition M (A : Type) : Type := world -> option (A * world).

Definition ret {A} (a : A) : M A := fun w => Some (a, w).
Definition bind {A B} (m : M A) (k : A -> M B) : M B :=
  fun w => match m w with
           | Some (a, w') => k a w'
           | None => None
           end.
Definition lift {A} (o : option A) : M A :=
  fun w => match o with Some a => Some (a, w) | None => None end.
Definition gets {A} (f : world -> A) : M A := fun w => Some (f w, w).
Definition modify (f : world -> world) : M unit := fun w => Some (tt, f w).

#[global] Instance M_ret : MRet M := @ret.
#[global] Instance M_bind : MBind M := fun A B k m => bind m k.

Definition set_micros_calls (n : nat) (w : world) : world :=
  World (micros_src w) (millis_src w) n (millis_calls w) (trace w)
        (ram_after_payload w) (txMicros w) (seconds w) (lastMillis w)
        (lastTX w) (tx_pending w) (t_temp w) (t_hum w) (rcode w).
Definition set_millis_calls (n : nat) (w : world) : world :=
  World (micros_src w) (millis_src w) (micros_calls w) n (trace w)
        (ram_after_payload w) (txMicros w) (seconds w) (lastMillis w)
        (lastTX w) (tx_pending w) (t_temp w) (t_hum w) (rcode w).
Definition set_trace (t : list event) (w : world) : world :=
  World (micros_src w) (millis_src w) (micros_calls w) (millis_calls w) t
        (ram_after_payload w) (txMicros w) (seconds w) (lastMillis w)
        (lastTX w) (tx_pending w) (t_temp w) (t_hum w) (rcode w).
Definition set_txMicros (t : option Z) (w : world) : world :=
  World (micros_src w) (millis_src w) (micros_calls w) (millis_calls w)
        (trace w) (ram_after_payload w) t (seconds w) (lastMillis w)
        (lastTX w) (tx_pending w) (t_temp w) (t_hum w) (rcode w).
Definition set_seconds (s : Z) (w : world) : world :=
  World (micros_src w) (millis_src w) (micros_calls w) (millis_calls w)
        (trace w) (ram_after_payload w) (txMicros w) s (lastMillis w)
        (lastTX w) (tx_pending w) (t_temp w) (t_hum w) (rcode w).
Definition set_lastMillis (m : Z) (w : world) : world :=
  World (micros_src w) (millis_src w) (micros_calls w) (millis_calls w)
        (trace w) (ram_after_payload w) (txMicros w) (seconds w) m
        (lastTX w) (tx_pending w) (t_temp w) (t_hum w) (rcode w).
Definition set_lastTX (m : Z) (w : world) : world :=
  World (micros_src w) (millis_src w) (micros_calls w) (millis_calls w)
        (trace w) (ram_after_payload w) (txMicros w) (seconds w)
        (lastMillis w) m (tx_pending w) (t_temp w) (t_hum w) (rcode w).
Definition set_tx_pending (b : bool) (w : world) : world :=
  World (micros_src w) (millis_src w) (micros_calls w) (millis_calls w)
        (trace w) (ram_after_payload w) (txMicros w) (seconds w)
        (lastMillis w) (lastTX w) b (t_temp w) (t_hum w) (rcode w).
Definition set_t_temp (t : float) (w : world) : world :=
  World (micros_src w) (millis_src w) (micros_calls w) (millis_calls w)
        (trace w) (ram_after_payload w) (txMicros w) (seconds w)
        (lastMillis w) (lastTX w) (tx_pending w) t (t_hum w) (rcode w).
Definition set_t_hum (h : Z) (w : world) : world :=
  World (micros_src w) (millis_src w) (micros_calls w) (millis_calls w)
        (trace w) (ram_after_payload w) (txMicros w) (seconds w)
        (lastMillis w) (lastTX w) (tx_pending w) (t_temp w) h (rcode w).

(** [micros()] and [millis()] *)
Definition micros : M Z :=
  fun w => Some (u32 (micros_src w (micros_calls w)),
                 set_micros_calls (S (micros_calls w)) w).
Definition millis : M Z :=
  fun w => Some (u32 (millis_src w (millis_calls w)),
                 set_millis_calls (S (millis_calls w)) w).

Definition emit (e : event) : M unit :=
  modify (fun w => set_trace (trace w ++ [e]) w).
Definition digitalWrite (pin : Z) (v : level) : M unit :=
  emit (DigitalWrite pin v).
(** The event carries the value of the argument expression. *)
Definition delayMicroseconds (us : Z) : M unit :=
  emit (DelayMicroseconds us).

(** ** BitModulator *)

Definition V3_PULSE_TUNING : float := float_lit 11 10.

(** [(V3_PULSE_LENGHT_US * V3_PULSE_TUNING) - V3_PULSE_SHORTEN_US] as the
    [unsigned int] argument of [delayMicroseconds]. *)
Definition pulse_on_us : option Z :=
  float_to_uint 16
    (fsub (fmul (float_of_Z V3_PULSE_LENGHT_US) V3_PULSE_TUNING)
          (float_of_Z V3_PULSE_SHORTEN_US)).

(** [static uint32_t txMicros = micros();] runs on the first call only. *)
Definition init_txMicros : M Z :=
  t ← gets txMicros;
  match t with
  | Some t => mret t
  | None => now ← micros; modify (set_txMicros (Some now));; mret now
  end.

(** The next value of [bitMask] (lines 105-110). *)
Definition next_bitMask (bitMask : Z) : Z :=
  if bitMask =? 0 then 0x10
  else if bitMask =? 0x80 then 0x01
  else u8 (Z.shiftl bitMask 1).

(** One pass of the [for] loop of [manchester_encode_v3]; returns the new
    [bitMask]. The comparison [txMicros - micros() < 0] is between
    [uint32_t] values. *)
Definition manchester_bit (txByte bitMask : Z) : M Z :=
  t ← gets txMicros;
  t ← lift t;
  let t' := u32 (t + V3_PULSE_LENGHT_US * 2) in
  modify (set_txMicros (Some t'));;
  now ← micros;
  (if u32 (t' - now) <? 0 then
     now' ← micros; delayMicroseconds (u32 (u32 (t' - now') * u32 (-1)))
   else
     now' ← micros; delayMicroseconds (u32 (t' - now')));;
  let bitMask' := next_bitMask bitMask in
  let one := Z.land txByte bitMask' >=? 1 in
  digitalWrite RF433_TX_PIN (if one then HIGH else LOW);;
  us ← lift pulse_on_us;
  delayMicroseconds us;;
  digitalWrite RF433_TX_PIN (if one then LOW else HIGH);;
  mret bitMask'.

Fixpoint manchester_bits (n : nat) (txByte bitMask : Z) : M unit :=
  match n with
  | O => mret tt
  | S n' => bitMask' ← manchester_bit txByte bitMask;
            manchester_bits n' txByte bitMask'
  end.

(** [void manchester_encode_v3(uint8_t txByte)] *)
Definition manchester_encode_v3 (txByte : Z) : M unit :=
  init_txMicros;; manchester_bits 8 txByte 0.

(** [for (; i < len; i++) manchester_encode_v3(payload[i]);] with [count]
    passes left. *)
Fixpoint encode_from (payload : list Z) (i count : nat) : M unit :=
  match count with
  | O => mret tt
  | S count' =>
      b ← lift (payload !! i);
      manchester_encode_v3 b;;
      encode_from payload (S i) count'
  end.

(** [void send_data_v3(uint8_t *payload, uint8_t len)]. [payload] is the
    memory from the pointer on. The text sent to [Serial] is left out; its
    clock read is kept. After the loop [i] equals [len]. *)
Definition send_data_v3 (payload : list Z) (len : nat) : M unit :=
  millis;;
  digitalWrite RF433_TX_PIN LOW;;
  encode_from payload 0 len;;
  b ← lift (payload !! len);
  (if Z.land b 0x08 =? 0
   then delayMicroseconds V3_PULSE_LENGHT_US
   else mret tt);;
  digitalWrite RF433_TX_PIN LOW.

(** ** TransmissionScheduler *)

(** Lines 227-234 of [loop]. *)
Definition loop_tick : M unit :=
  now ← millis;
  last ← gets lastMillis;
  if u32 (now - last) >? 1000 then
    digitalWrite LED_BUILTIN LOW;;
    now' ← millis;
    modify (set_lastMillis now');;
    s ← gets seconds;
    modify (set_seconds (u32 (s + 1)));;
    millis;;
    modify (set_tx_pending true)
  else mret tt.

(** Lines 261-269 of [loop] ([DEBUG_INC]). *)
Definition inc_readings : M unit :=
  t ← gets t_temp;
  let t := fadd t (float_lit 1 10) in
  modify (set_t_temp t);;
  (if fltb (float_of_Z 45) t
   then modify (set_t_temp (float_of_Z 19))
   else mret tt);;
  h ← gets t_hum;
  let h := u8 (h + 1) in
  modify (set_t_hum h);;
  if h >? 95 then modify (set_t_hum 30) else mret tt.

(** Lines 238-270 of [loop]. [send_data_v3] receives the address of the
    static buffer: the memory from there on is the 13 bytes followed by
    [ram_after_payload]. *)
Definition loop_tx : M unit :=
  s ← gets seconds;
  pending ← gets tx_pending;
  if (Z.rem s V3_TX_INTERVAL_SECS =? 0) && pending then
    modify (set_tx_pending false);;
    digitalWrite LED_BUILTIN HIGH;;
    millis;;
    last ← gets lastTX;
    (if last >? 0 then
       millis;; now ← millis; modify (set_lastTX now)
     else mret tt);;
    rc ← gets rcode;
    t ← gets t_temp;
    h ← gets t_hum;
    payload ← lift (payload_thgn801 rc t h);
    after ← gets ram_after_payload;
    send_data_v3 (payload ++ [after]) V3_TX_BYTES;;
    inc_readings
  else mret tt.

(** [void loop()] *)
Definition loop : M unit := loop_tick;; loop_tx.

(** The state in which [loop] first runs: the initial values of the static
    variables, for a rolling code drawn by [setup]. *)
Definition initial_world (us ms : nat -> Z) (after rc : Z) : world :=
  World us ms 0 0 [] after None 0 0 0 true (float_of_tenths (-15)) 20 rc.

(** ** Reference definitions, written from the protocol description *)

Module Reference.

(** The nibble at position [i] of a buffer: the high nibble of byte
    [i / 2] for an even position, the low nibble for an odd one. *)
Definition nibble (payload : list Z) (i : nat) : option Z :=
  b ← payload !! (i / 2)%nat;
  Some (if Nat.even i then b / 16 else b mod 16).

Definition swap_nibbles (x : Z) : Z := (x mod 16) * 16 + x / 16.

(** One shift-and-conditional-XOR round of a CRC-8 with polynomial 0x07. *)
Definition crc8_round (c : Z) : Z :=
  let s := (2 * c) mod 256 in
  if Z.testbit c 7 then Z.lxor s 7 else s.

Definition crc8_rounds (c : Z) : Z :=
  crc8_round (crc8_round (crc8_round (crc8_round c))).

(** XOR in the nibble at position [i], then run the four rounds. *)
Definition crc8_absorb (payload : list Z) (acc : option Z) (i : nat)
  : option Z :=
  c ← acc; x ← nibble payload i; Some (crc8_rounds (Z.lxor c x)).

(** CRC-8 over the nibbles at positions [7 .. count + 6], a flush pass
    at position [count + 7], nibbles swapped. *)
Definition crc8 (payload : list Z) (count : nat) : option Z :=
  c ← fold_left (crc8_absorb payload) (seq 7 count) (Some 0);
  Some (swap_nibbles (crc8_rounds c)).

(** The sum of both nibbles of the bytes at the indices [idx]. *)
Fixpoint nibble_sum (payload : list Z) (idx : list nat) : option Z :=
  match idx with
  | [] => Some 0
  | i :: idx' =>
      b ← payload !! i;
      s ← nibble_sum payload idx';
      Some (b / 16 + b mod 16 + s)
  end.

(** The simple checksum, with the half byte that follows the whole
    bytes added when [extra count] holds. *)
Definition simple_checksum (extra : Z -> bool) (payload : list Z) (count : Z)
  : option Z :=
  sync ← payload !! 3%nat;
  let seed := sync mod 16 in
  let stop := (28 + 4 * count) / 8 in
  body ← nibble_sum payload (seq 4 (Z.to_nat (stop - 4)));
  half ← (if extra count
          then b ← payload !! Z.to_nat stop; Some (b / 16)
          else Some 0);
  Some (swap_nibbles ((seed + body + half) mod 256)).

(** As the specification words it: the half byte is added for an odd
    count. *)
Definition simpleChecksum_odd : list Z -> Z -> option Z :=
  simple_checksum Z.odd.

(** The half byte is added for an even count. *)
Definition simpleChecksum_even : list Z -> Z -> option Z :=
  simple_checksum Z.even.

End Reference.

(** ** The golden vector *)

(** The 13 bytes built for rolling code 0x00, -1.5 degrees and 20 %. *)
Definition golden_payload : list Z :=
  [0xFF; 0xFF; 0xFF; 0xAF; 0x82; 0x41; 0x00; 0x05; 0x10; 0x80; 0x20; 0xE2; 0x73].

(** The same buffer before the two checksum bytes are stored. *)
Definition golden_unsealed : list Z :=
  [0xFF; 0xFF; 0xFF; 0xAF; 0x82; 0x41; 0x00; 0x05; 0x10; 0x80; 0x20; 0x00; 0x00].

(** ** Reading a payload back *)

(** The reading held by the bytes 7 .. 10: three BCD digits of the
    temperature in tenths of a degree, least significant first, the sign in
    bit 7 of byte 9, and two BCD digits of the humidity. *)
Definition decode_reading (payload : list Z) : option (Z * Z) :=
  b7 ← payload !! 7%nat;
  b8 ← payload !! 8%nat;
  b9 ← payload !! 9%nat;
  b10 ← payload !! 10%nat;
  let magnitude := b7 mod 16 + 10 * (b8 / 16) + 100 * (b8 mod 16) in
  let tenths := if Z.testbit b9 7 then - magnitude else magnitude in
  let hum := b9 mod 16 + 10 * (b10 / 16) in
  Some (tenths, hum).

(** ** Checks run over the whole domain of the readings *)

(** For [k = z - 999] tenths: [t10] of the float nearest to [k / 10] is
    [|k|], and the float is below zero exactly when [k] is. *)
Definition tenths_ok (z : Z) : bool :=
  let k := z - 999 in
  match t10_of (float_of_tenths k) with
  | Some t => t =? Z.abs k
  | None => false
  end
  && Bool.eqb (fltb (float_of_tenths k) (float_of_Z 0)) (k <? 0).

(** The digits stored for [t10 = t] read back as [t]. *)
Definition temp_digits_ok (t : Z) : bool :=
  let b7 := u8 (Z.lor 0 (Z.land (Z.rem t 10) 0x0F)) in
  let b8 := u8 (Z.lor (Z.shiftl (Z.rem (Z.quot t 10) 10) 4)
                      (Z.land (Z.quot t 100) 0x0F)) in
  b7 mod 16 + 10 * (b8 / 16) + 100 * (b8 mod 16) =? t.

(** The sign bit and the digits stored for the humidity [h] read back. *)
Definition hum_digits_ok (neg : bool) (h : Z) : bool :=
  let b9 := u8 (Z.lor (if neg then 0x80 else 0) (Z.land (Z.rem h 10) 0x0F)) in
  let b10 := u8 (Z.shiftl (Z.rem (Z.quot h 10) 10) 4) in
  Bool.eqb (Z.testbit b9 7) neg && (b9 mod 16 + 10 * (b10 / 16) =? h).

(** ** Reading a trace back (receiver side) *)

(** The levels written to [pin], oldest first. *)
Definition pin_levels (pin : Z) (tr : list event) : list level :=
  flat_map (fun e => match e with
                     | DigitalWrite p v => if p =? pin then [v] else []
                     | DelayMicroseconds _ => []
                     end) tr.

(** An on-to-off transition is a 1, an off-to-on transition a 0. *)
Definition transition (a b : level) : option bool :=
  match a, b with
  | HIGH, LOW => Some true
  | LOW, HIGH => Some false
  | _, _ => None
  end.

Fixpoint transitions (lv : list level) : option (list bool) :=
  match lv with
  | [] => Some []
  | a :: b :: lv' =>
      t ← transition a b; ts ← transitions lv'; Some (t :: ts)
  | _ => None
  end.

Definition nibble_of_bits (b0 b1 b2 b3 : bool) : Z :=
  Z.b2z b0 + 2 * Z.b2z b1 + 4 * Z.b2z b2 + 8 * Z.b2z b3.

(** Eight bits per byte: the high nibble first, each nibble least
    significant bit first. *)
Fixpoint bytes_of_bits (bits : list bool) : option (list Z) :=
  match bits with
  | [] => Some []
  | h0 :: h1 :: h2 :: h3 :: l0 :: l1 :: l2 :: l3 :: bits' =>
      bs ← bytes_of_bits bits';
      Some ((16 * nibble_of_bits h0 h1 h2 h3 + nibble_of_bits l0 l1 l2 l3) :: bs)
  | _ => None
  end.

Definition demodulate (tr : list event) : option (list Z) :=
  bits ← transitions (pin_levels RF433_TX_PIN tr); bytes_of_bits bits.

(** The bits of a byte in the order bit 4, 5, 6, 7, 0, 1, 2, 3. *)
Definition wire_bits (b : Z) : list bool :=
  map (Z.testbit b) [4; 5; 6; 7; 0; 1; 2; 3].

(** The levels written by [n] passes of the loop of
    [manchester_encode_v3] that start from [bitMask]. *)
Fixpoint mask_levels (n : nat) (txByte bitMask : Z) : list level :=
  match n with
  | O => []
  | S n' =>
      let bitMask' := next_bitMask bitMask in
      let one := Z.land txByte bitMask' >=? 1 in
      (if one then HIGH else LOW) :: (if one then LOW else HIGH)
      :: mask_levels n' txByte bitMask'
  end.

(** The events of one pass of that loop, for the deadline [t'] and the
    clock value [now'] read for the delay. *)
Definition bit_events (txByte bitMask t' now' : Z) : list event :=
  let one := Z.land txByte (next_bitMask bitMask) >=? 1 in
  [DelayMicroseconds (u32 (t' - now'));
   DigitalWrite RF433_TX_PIN (if one then HIGH else LOW);
   DelayMicroseconds 402;
   DigitalWrite RF433_TX_PIN (if one then LOW else HIGH)].

(** What the modulator leaves untouched: everything but the clock
    counters, the trace and [txMicros]. *)
Definition same_statics (w w' : world) : Prop :=
  micros_src w' = micros_src w
  /\ millis_src w' = millis_src w
  /\ ram_after_payload w' = ram_after_payload w
  /\ seconds w' = seconds w
  /\ lastMillis w' = lastMillis w
  /\ lastTX w' = lastTX w
  /\ tx_pending w' = tx_pending w
  /\ t_temp w' = t_temp w
  /\ t_hum w' = t_hum w
  /\ rcode w' = rcode w.

(** The last [n] events of a trace. *)
Definition last_events (n : nat) (tr : list event) : list event :=
  rev (firstn n (rev tr)).

(** The levels written for the byte [b] decode to the bits of [b] in wire
    order and to [b] itself. *)
Definition byte_round_trip_ok (b : Z) : bool :=
  match transitions (mask_levels 8 b 0) with
  | Some bits =>
      match bytes_of_bits bits with
      | Some [b'] => (b' =? b) && bool_decide (bits = wire_bits b)
      | _ => false
      end
  | None => false
  end.

(** A run of the modulator from [w] to [w'] that appends the events [ev]:
    an initialised [txMicros] stays initialised and only the [micros]
    counter, the trace and [txMicros] change. *)
Definition modulator_run (w w' : world) (ev : list event) : Prop :=
  trace w' = trace w ++ ev
  /\ (is_Some (txMicros w) -> is_Some (txMicros w'))
  /\ millis_calls w' = millis_calls w
  /\ same_statics w w'.

(** ** Concrete worlds used to run the modulator *)

(** A world whose clocks always read 0. *)
Definition idle_world : world :=
  initial_world (fun _ => 0) (fun _ => 0) 0 0.

(** The last three events of [send_data_v3] on the memory [memory]. *)
Definition closing_events (memory : list Z) (len : nat) : option (list event) :=
  r ← send_data_v3 memory len idle_world; Some (last_events 3 (trace r.2)).

(** A world in which the deadline [txMicros] is 1000 and the clock reads
    [now] at every call. *)
Definition deadline_world (now : Z) : world :=
  set_txMicros (Some 1000) (initial_world (fun _ => now) (fun _ => 0) 0 0).

(** The deadline and the events after one pass of the bit loop. *)
Definition bit_outcome (w : world) : option (option Z * list event) :=
  r ← manchester_bit 0xFF 0 w; Some (txMicros r.2, trace r.2).

(** A world for the scheduler: [lastMillis] is 0, the clock reads [now]
    milliseconds, [secs] seconds have elapsed, no transmission is pending. *)
Definition tick_world (now secs : Z) : world :=
  set_tx_pending false
    (set_seconds secs (initial_world (fun _ => 0) (fun _ => now) 0 0)).

(** ** The test-mode policy, in the words of the description *)

(** Add 0.1; a result above 45 becomes 19.0. *)
Definition next_temp (t : float) : float :=
  let t' := fadd t (float_lit 1 10) in
  if fltb (float_of_Z 45) t' then float_of_Z 19 else t'.

(** Add 1; a result above 95 becomes 30. *)
Definition next_hum (h : Z) : Z :=
  if h + 1 >? 95 then 30 else h + 1.

(** The condition under which [loop] transmits. *)
Definition tx_due (w : world) : bool :=
  (Z.rem (seconds w) V3_TX_INTERVAL_SECS =? 0) && tx_pending w.

(** A world at the upper end of the test-mode range: 45.0 degrees, 95 %. *)
Definition boundary_world : world :=
  set_t_hum 95 (set_t_temp (float_of_Z 45) idle_world).

(** ** The buffer of [payload_thgn801] before the checksums are stored *)

(** The thirteen bytes after line 163, for the value [t10], the outcome
    [negative] of [tempC < 0.0] and the humidity. *)
Definition unsealed_payload (rollingCode t10 : Z) (negative : bool) (hum : Z)
  : list Z :=
  [0xFF; 0xFF; 0xFF; 0xAF; 0x82; 0x41; rollingCode;
   u8 (Z.lor 0 (Z.land (Z.rem t10 10) 0x0F));
   u8 (Z.lor (Z.shiftl (Z.rem (Z.quot t10 10) 10) 4)
             (Z.land (Z.quot t10 100) 0x0F));
   u8 (Z.lor (if negative then 0x80 else 0) (Z.land (Z.rem hum 10) 0x0F));
   u8 (Z.shiftl (Z.rem (Z.quot hum 10) 10) 4);
   0; 0].

(** The nibbles stored for [t10 = t] are the flag 0 and three decimal
    digits. *)
Definition temp_nibbles_ok (t : Z) : bool :=
  let b7 := u8 (Z.lor 0 (Z.land (Z.rem t 10) 0x0F)) in
  let b8 := u8 (Z.lor (Z.shiftl (Z.rem (Z.quot t 10) 10) 4)
                      (Z.land (Z.quot t 100) 0x0F)) in
  (b7 / 16 =? 0) && (b7 mod 16 <=? 9) && (b8 / 16 <=? 9) && (b8 mod 16 <=? 9).

(** The nibbles stored for a humidity byte [h]: the sign nibble, two
    decimal digits that read back as [h mod 100], and a zero nibble. *)
Definition hum_nibbles_ok (neg : bool) (h : Z) : bool :=
  let b9 := u8 (Z.lor (if neg then 0x80 else 0) (Z.land (Z.rem h 10) 0x0F)) in
  let b10 := u8 (Z.shiftl (Z.rem (Z.quot h 10) 10) 4) in
  (b9 / 16 =? (if neg then 8 else 0)) && Bool.eqb (Z.testbit b9 7) neg
  && (b9 mod 16 <=? 9) && (b10 / 16 <=? 9) && (b10 mod 16 =? 0)
  && (b9 mod 16 + 10 * (b10 / 16) =? h mod 100).

(** ** Checks over all bytes for the error-detection properties *)

(** No other byte has the same image as [a] under the four CRC rounds. *)
Definition crc8_rounds_distinct (a : Z) : bool :=
  forallb (fun b => implb (Reference.crc8_rounds a =? Reference.crc8_rounds b)
                          (a =? b))
          (map Z.of_nat (seq 0 256)).

(** The sum of the nibbles at the positions [idx]. *)
Fixpoint nibble_total (payload : list Z) (idx : list nat) : option Z :=
  match idx with
  | [] => Some 0
  | i :: idx' =>
      x ← Reference.nibble payload i;
      s ← nibble_total payload idx';
      Some (x + s)
  end.

(** ** Events of the modulator *)

(** An event that does not touch any pin but the RF pin. *)
Definition rf_event (e : event) : Prop :=
  match e with
  | DigitalWrite pin _ => pin = RF433_TX_PIN
  | DelayMicroseconds _ => True
  end.

(** The bytes read back from the levels of a frame. *)
Definition frame_bytes (lv : list level) : option (list Z) :=
  bits ← transitions lv; bytes_of_bits bits.

(** The deadline from which a frame counts: [txMicros] when it is
    initialised, the next reading of [micros()] otherwise. *)
Definition first_deadline (w : world) : Z :=
  match txMicros w with
  | Some t => t
  | None => u32 (micros_src w (micros_calls w))
  end.

Definition is_u32 (z : Z) : Prop := 0 <= z < 4294967296.

(** The clock reads spent on the initialiser of [txMicros]. *)
Definition init_reads (w : world) : nat :=
  match txMicros w with
  | Some _ => 0
  | None => 1
  end.

(** ** The scheduler step by step *)

(** The milliseconds since the last second tick, as [loop] computes them
    from its first reading of [millis()]. *)
Definition tick_elapsed (w : world) : Z :=
  u32 (u32 (millis_src w (millis_calls w)) - lastMillis w).

Definition ticked (w : world) : bool := tick_elapsed w >? 1000.

Definition seconds_after_tick (w : world) : Z :=
  if ticked w then u32 (seconds w + 1) else seconds w.

(** The condition of line 238 as it stands after lines 227-234. *)
Definition due_after_tick (w : world) : bool :=
  (Z.rem (seconds_after_tick w) V3_TX_INTERVAL_SECS =? 0)
  && (ticked w || tx_pending w).

(** What the second tick leaves untouched. *)
Definition tick_frame (w w' : world) : Prop :=
  micros_src w' = micros_src w
  /\ millis_src w' = millis_src w
  /\ micros_calls w' = micros_calls w
  /\ ram_after_payload w' = ram_after_payload w
  /\ txMicros w' = txMicros w
  /\ lastTX w' = lastTX w
  /\ t_temp w' = t_temp w
  /\ t_hum w' = t_hum w
  /\ rcode w' = rcode w.

(** [loop] called [n] times in a row, as the Arduino runtime does. *)
Fixpoint loops (n : nat) : M unit :=
  match n with
  | O => mret tt
  | S n' => loop;; loops n'
  end.

(** ** The readings of the emulator's own run *)

(** The first reading of the test-mode run. *)
Definition first_temp : float := float_of_tenths (-15).
Definition first_hum : Z := 20.

(** The temperature, in tenths of a degree, sent by transmission number
    [n] (counted from 0): -1.5 upwards to 45.0, then 19.0 to 45.0 again and
    again. *)
Definition tenths_at (n : nat) : Z :=
  if (n <? 466)%nat then Z.of_nat n - 15
  else 190 + Z.of_nat ((n - 466) mod 261).

(** The humidity sent by transmission number [n]: 20 upwards to 95, then
    30 to 95 again and again. *)
Definition hum_at (n : nat) : Z :=
  if (n <? 76)%nat then 20 + Z.of_nat n
  else 30 + Z.of_nat ((n - 76) mod 66).

(** [steps] readings in a row, starting at [t], have the tenths
    [expect], [expect + 1], ... and the matching sign. *)
Fixpoint orbit_tenths (steps : nat) (expect : Z) (t : float) : bool :=
  match steps with
  | O => true
  | S steps' =>
      match t10_of t with
      | Some v => (v =? Z.abs expect)
                  && Bool.eqb (fltb t (float_of_Z 0)) (expect <? 0)
      | None => false
      end
      && orbit_tenths steps' (expect + 1) (next_temp t)
  end.

(** The state that [loop] keeps: [lastTX] is 0, the rolling code is a
    byte, [txMicros] is a 32-bit value and the readings are those of
    transmission number [n]. *)
Definition loop_invariant (n : nat) (w : world) : Prop :=
  lastTX w = 0
  /\ is_u8 (rcode w)
  /\ (forall t, txMicros w = Some t -> is_u32 t)
  /\ t_temp w = Nat.iter n next_temp first_temp
  /\ t_hum w = Nat.iter n next_hum first_hum.

(** A world whose millisecond clock has wrapped: the last tick was 500 ms
    before the 32-bit counter overflowed, the clock now reads 600. *)
Definition wrapped_world : world :=
  set_lastMillis 4294966796 (initial_world (fun _ => 0) (fun _ => 600) 0 0).

(** * Proofs *)

(** ** Checking a decidable property on an initial segment of [Z] *)

Section Exhaustive.

Variable P : Z -> bool.

Lemma forallb_below (n : nat) :
  forallb P (map Z.of_nat (seq 0 n)) = true ->
  forall z, 0 <= z < Z.of_nat n -> P z = true.
Proof.
  intros Hall z Hz.
  rewrite forallb_forall in Hall. apply Hall.
  apply in_map_iff. exists (Z.to_nat z). split; [lia|].
  apply in_seq. lia.
Qed.

End Exhaustive.

Lemma u8_range z : is_u8 (u8 z).
Proof. unfold is_u8, u8. apply Z.mod_pos_bound. lia. Qed.

Lemma u8_small z : is_u8 z -> u8 z = z.
Proof. unfold is_u8, u8. intros. apply Z.mod_small. lia. Qed.

Lemma u32_range z : 0 <= u32 z < 4294967296.
Proof. unfold u32. apply Z.mod_pos_bound. lia. Qed.

Lemma lookup_u8 (payload : list Z) (i : nat) (b : Z) :
  Forall is_u8 payload -> payload !! i = Some b -> is_u8 b.
Proof. intros Hall Hi. eapply Forall_lookup_1; eauto. Qed.

(** ** ChecksumEngine against the reference definitions *)

Section Checksums.

Import Reference.

Lemma swap_return_swap_nibbles c : is_u8 c -> swap_return c = swap_nibbles c.
Proof.
  intros Hc.
  assert (H : (swap_return c =? swap_nibbles c) = true).
  { apply (forallb_below (fun c => swap_return c =? swap_nibbles c) 256);
      [vm_compute; reflexivity | exact Hc]. }
  apply Z.eqb_eq. exact H.
Qed.

Lemma crc8_bit_round c : is_u8 c -> crc8_bit c = crc8_round c.
Proof.
  intros Hc.
  assert (H : (crc8_bit c =? crc8_round c) = true).
  { apply (forallb_below (fun c => crc8_bit c =? crc8_round c) 256);
      [vm_compute; reflexivity | exact Hc]. }
  apply Z.eqb_eq. exact H.
Qed.

Lemma crc8_round_range c : is_u8 c -> is_u8 (crc8_round c).
Proof. intros Hc. rewrite <- crc8_bit_round by assumption.
       unfold crc8_bit. destruct (negb _); apply u8_range. Qed.

Lemma crc8_bits_rounds c : is_u8 c -> Nat.iter 4 crc8_bit c = crc8_rounds c.
Proof.
  intros Hc. cbn [Nat.iter nat_rect]. unfold crc8_rounds.
  rewrite (crc8_bit_round c) by assumption.
  rewrite (crc8_bit_round (crc8_round c)) by auto using crc8_round_range.
  rewrite (crc8_bit_round (crc8_round (crc8_round c)))
    by auto using crc8_round_range.
  rewrite crc8_bit_round by auto using crc8_round_range.
  reflexivity.
Qed.

Lemma crc8_rounds_range c : is_u8 c -> is_u8 (crc8_rounds c).
Proof. intros. unfold crc8_rounds. auto using crc8_round_range. Qed.

(** XOR of a byte with a nibble stays a byte. *)
Lemma lxor_nibble_range c x : is_u8 c -> 0 <= x < 16 -> is_u8 (Z.lxor c x).
Proof.
  intros Hc Hx.
  assert (H : forallb (fun x => (0 <=? Z.lxor c x) && (Z.lxor c x <? 256))
                      (map Z.of_nat (seq 0 16)) = true).
  { revert c Hc.
    assert (G : forall c, 0 <= c < Z.of_nat 256 ->
              (fun c => forallb (fun x => (0 <=? Z.lxor c x) && (Z.lxor c x <? 256))
                          (map Z.of_nat (seq 0 16))) c = true).
    { apply forallb_below. vm_compute. reflexivity. }
    intros c Hc. apply G. exact Hc. }
  pose proof (forallb_below _ 16 H x Hx) as Hb. cbv beta in Hb.
  apply andb_true_iff in Hb. destruct Hb as [H1 H2].
  unfold is_u8. lia.
Qed.

Lemma high_nibble_range b : is_u8 b -> 0 <= b / 16 < 16.
Proof. unfold is_u8. intros. split; [apply Z.div_pos; lia|].
       apply Z.div_lt_upper_bound; lia. Qed.

Lemma low_nibble_range b : 0 <= b mod 16 < 16.
Proof. apply Z.mod_pos_bound. lia. Qed.

Lemma shiftr4 b : Z.shiftr b 4 = b / 16.
Proof. rewrite Z.shiftr_div_pow2 by lia. reflexivity. Qed.

Lemma land15 b : Z.land b 15 = b mod 16.
Proof. change 15 with (Z.ones 4). rewrite Z.land_ones by lia. reflexivity. Qed.

Lemma nibble_range payload i x :
  Forall is_u8 payload -> nibble payload i = Some x -> 0 <= x < 16.
Proof.
  unfold nibble. intros Hall Hx.
  destruct (payload !! (i / 2)%nat) as [b|] eqn:Hb; [|discriminate].
  cbn in Hx. injection Hx as <-.
  destruct (Nat.even i);
    [apply high_nibble_range; eauto using lookup_u8 | apply low_nibble_range].
Qed.

End Checksums.

Lemma even_to_nat i : 0 <= i -> Nat.even (Z.to_nat i) = Z.even i.
Proof.
  intros Hi. destruct (Z.even i) eqn:E.
  - apply Nat.even_spec. apply Z.even_spec in E. destruct E as [k ->].
    exists (Z.to_nat k). lia.
  - destruct (Nat.even (Z.to_nat i)) eqn:E'; [|reflexivity].
    apply Nat.even_spec in E'. destruct E' as [k Hk].
    assert (Z.even i = true) by (apply Z.even_spec; exists (Z.of_nat k); lia).
    congruence.
Qed.

Section CrcLoop.

Import Reference.

Lemma crc8_absorb_none payload idx :
  fold_left (crc8_absorb payload) idx None = None.
Proof. induction idx as [|i idx IH]; [reflexivity | exact IH]. Qed.

(** The byte and the half selected by the loop body are the nibble at
    position [i]. *)
Lemma crc8_select payload i crc :
  0 <= i -> Forall is_u8 payload -> is_u8 crc ->
  (b ← payload !! Z.to_nat (Z.quot i 2);
   if Z.rem i 2 =? 0
   then Some (u8 (Z.lxor crc (Z.shiftr b 4)))
   else Some (u8 (Z.lxor crc (Z.land b 0x0F))))
  = (x ← nibble payload (Z.to_nat i); Some (Z.lxor crc x)).
Proof.
  intros Hi Hall Hc. unfold nibble.
  rewrite Z.quot_div_nonneg by lia.
  replace (Z.to_nat (i / 2)) with (Z.to_nat i / 2)%nat
    by (rewrite Z2Nat.inj_div by lia; reflexivity).
  destruct (payload !! (Z.to_nat i / 2)%nat) as [b|] eqn:Hb; [|reflexivity].
  cbn [mbind option_bind].
  assert (Hbr : is_u8 b) by eauto using lookup_u8.
  rewrite Z.rem_mod_nonneg by lia.
  rewrite even_to_nat, Zeven_mod by lia.
  rewrite shiftr4. change 0x0F with 15. rewrite land15.
  destruct (i mod 2 =? 0); f_equal; apply u8_small, lxor_nibble_range;
    auto using high_nibble_range, low_nibble_range.
Qed.

(** [m] passes of the loop that stay below the flush position and below
    the wrap of the counter absorb the nibbles at [i .. i + m - 1]. *)
Lemma crc8_loop_absorb payload n m : forall fuel i crc,
  Forall is_u8 payload -> is_u8 crc ->
  0 <= i -> i + Z.of_nat m <= n + 7 -> i + Z.of_nat m <= 255 ->
  crc8_loop (m + fuel) payload n i crc
  = match fold_left (crc8_absorb payload) (seq (Z.to_nat i) m) (Some crc) with
    | Some crc' => crc8_loop fuel payload n (i + Z.of_nat m) crc'
    | None => None
    end.
Proof.
  induction m as [|m IH]; intros fuel i crc Hall Hc Hi Hn Hw.
  - cbn [seq fold_left Nat.add]. f_equal. lia.
  - cbn [Nat.add crc8_loop seq fold_left].
    replace (i <=? n + 7) with true by (symmetry; apply Z.leb_le; lia).
    replace (i <? n + 7) with true by (symmetry; apply Z.ltb_lt; lia).
    rewrite crc8_select by assumption.
    unfold crc8_absorb at 2. cbn [mbind option_bind].
    destruct (nibble payload (Z.to_nat i)) as [x|] eqn:Hx;
      cbn [mbind option_bind]; [|rewrite crc8_absorb_none; reflexivity].
    assert (Hcx : is_u8 (Z.lxor crc x))
      by eauto using lxor_nibble_range, nibble_range.
    rewrite crc8_bits_rounds by assumption.
    rewrite (u8_small (i + 1)) by (unfold is_u8; lia).
    rewrite IH by (auto using crc8_rounds_range; lia).
    replace (Z.to_nat (i + 1)) with (S (Z.to_nat i)) by lia.
    replace (i + 1 + Z.of_nat m) with (i + Z.of_nat (S m)) by lia.
    reflexivity.
Qed.

(** The flush pass and the exit of the loop. *)
Lemma crc8_loop_flush payload n fuel crc :
  is_u8 crc -> 0 <= n -> n + 8 <= 255 ->
  crc8_loop (S (S fuel)) payload n (n + 7) crc = Some (crc8_rounds crc).
Proof.
  intros Hc Hn Hw. cbn [crc8_loop].
  rewrite Z.leb_refl, Z.ltb_irrefl. cbn [mbind option_bind].
  rewrite (u8_small (n + 7 + 1)) by (unfold is_u8; lia).
  replace (n + 7 + 1 <=? n + 7) with false by (symmetry; apply Z.leb_gt; lia).
  rewrite crc8_bits_rounds by assumption. reflexivity.
Qed.

(** Agreement on every byte list, for the counts at which the
    [uint8_t] counter does not wrap. *)
Lemma crc8_checksum_v3_crc8 payload n :
  Forall is_u8 payload -> 0 <= n <= 247 ->
  crc8_checksum_v3 payload n = crc8 payload (Z.to_nat n).
Proof.
  intros Hall Hn. unfold crc8_checksum_v3, crc8, u8_loop_fuel.
  replace 257%nat with (Z.to_nat n + (S (S (255 - Z.to_nat n))))%nat by lia.
  rewrite crc8_loop_absorb by (unfold is_u8; auto; lia).
  change (Z.to_nat 7) with 7%nat.
  destruct (fold_left (crc8_absorb payload) (seq 7 (Z.to_nat n)) (Some 0))
    as [c|] eqn:Hfold; [|reflexivity].
  assert (Hc : is_u8 c).
  { clear -Hall Hfold. revert Hfold.
    assert (G : forall idx acc r, (forall a, acc = Some a -> is_u8 a) ->
              fold_left (crc8_absorb payload) idx acc = Some r -> is_u8 r).
    { induction idx as [|j idx IH]; intros acc r Hacc; cbn [fold_left].
      - auto.
      - apply IH. intros a. unfold crc8_absorb.
        destruct acc as [a0|]; [|discriminate]. cbn [mbind option_bind].
        destruct (nibble payload j) as [x|] eqn:Hx; [|discriminate].
        cbn [mbind option_bind]. intros [= <-].
        apply crc8_rounds_range, lxor_nibble_range;
          eauto using nibble_range. }
    apply G. intros a [= <-]. unfold is_u8. lia. }
  replace (7 + Z.of_nat (Z.to_nat n)) with (n + 7) by lia.
  rewrite crc8_loop_flush by (auto; lia).
  cbn [mbind option_bind]. rewrite swap_return_swap_nibbles
    by auto using crc8_rounds_range.
  reflexivity.
Qed.

Lemma nibble_inside payload i :
  (i < 2 * length payload)%nat -> is_Some (nibble payload i).
Proof.
  intros Hi. unfold nibble.
  destruct (lookup_lt_is_Some_2 payload (i / 2)%nat) as [b Hb].
  { apply Nat.Div0.div_lt_upper_bound. lia. }
  rewrite Hb. cbn. eauto.
Qed.

Lemma nibble_outside payload i :
  (2 * length payload <= i)%nat -> nibble payload i = None.
Proof.
  intros Hi. unfold nibble.
  rewrite (lookup_ge_None_2 payload (i / 2)%nat); [reflexivity|].
  apply Nat.div_le_lower_bound; lia.
Qed.

Lemma crc8_fold_inside payload idx : forall c,
  Forall (fun i => (i < 2 * length payload)%nat) idx ->
  is_Some (fold_left (crc8_absorb payload) idx (Some c)).
Proof.
  induction idx as [|i idx IH]; intros c Hidx; cbn [fold_left]; [eauto|].
  inversion Hidx as [|? ? Hi Hrest]; subst.
  destruct (nibble_inside payload i Hi) as [x Hx].
  unfold crc8_absorb at 2. cbn [mbind option_bind]. rewrite Hx.
  cbn [mbind option_bind]. apply IH. assumption.
Qed.

Lemma crc8_fold_outside payload i idx idx' acc :
  (2 * length payload <= i)%nat ->
  fold_left (crc8_absorb payload) (idx ++ i :: idx') acc = None.
Proof.
  intros Hi. rewrite fold_left_app. cbn [fold_left].
  replace (crc8_absorb payload _ i) with (@None Z);
    [apply crc8_absorb_none|].
  unfold crc8_absorb.
  destruct (fold_left _ idx acc); cbn [mbind option_bind]; [|reflexivity].
  rewrite nibble_outside by assumption. reflexivity.
Qed.

(** On a 13-byte buffer a window of 20 nibbles or more leaves the
    buffer at position 26: neither side has a result. *)
Lemma crc8_window_outside payload n :
  is_buffer payload -> 20 <= n <= 255 ->
  crc8_checksum_v3 payload n = None /\ crc8 payload (Z.to_nat n) = None.
Proof.
  intros [Hlen Hall] Hn. unfold V3_TX_BYTES in Hlen. split.
  - unfold crc8_checksum_v3, u8_loop_fuel.
    change 257%nat with (20 + 237)%nat.
    rewrite crc8_loop_absorb by (unfold is_u8; auto; lia).
    change (seq (Z.to_nat 7) 20) with (seq 7 19 ++ 26%nat :: []).
    rewrite crc8_fold_outside by lia. reflexivity.
  - unfold crc8.
    replace (Z.to_nat n) with (19 + S (Z.to_nat n - 20))%nat by lia.
    rewrite seq_app. cbn [seq Nat.add].
    rewrite crc8_fold_outside by lia. reflexivity.
Qed.

Lemma crc8_window_inside payload n :
  is_buffer payload -> 0 <= n <= 19 -> is_Some (crc8 payload (Z.to_nat n)).
Proof.
  intros [Hlen Hall] Hn. unfold V3_TX_BYTES in Hlen. unfold crc8.
  destruct (crc8_fold_inside payload (seq 7 (Z.to_nat n)) 0) as [c Hc].
  { apply Forall_forall. intros i Hi. apply elem_of_seq in Hi. lia. }
  rewrite Hc. cbn. eauto.
Qed.

End CrcLoop.

Section OregonLoop.

Import Reference.

Lemma oregon_loop_exit payload bound fuel i c :
  bound <= i -> oregon_loop (S fuel) payload bound i c = Some c.
Proof.
  intros Hi. cbn [oregon_loop].
  replace (i <? bound) with false by (symmetry; apply Z.ltb_ge; lia).
  reflexivity.
Qed.

(** [m] passes of the loop add both nibbles of the bytes
    [i .. i + m - 1], modulo 256. *)
Lemma oregon_loop_sum payload bound m : forall fuel i c,
  is_u8 c -> 0 <= i -> i + Z.of_nat m <= bound -> i + Z.of_nat m <= 255 ->
  oregon_loop (m + fuel) payload bound i c
  = match nibble_sum payload (seq (Z.to_nat i) m) with
    | Some s => oregon_loop fuel payload bound (i + Z.of_nat m) (u8 (c + s))
    | None => None
    end.
Proof.
  induction m as [|m IH]; intros fuel i c Hc Hi Hb Hw.
  - cbn [seq nibble_sum Nat.add]. rewrite Z.add_0_r, Z.add_0_r.
    rewrite u8_small by assumption. reflexivity.
  - cbn [Nat.add oregon_loop seq nibble_sum].
    replace (i <? bound) with true by (symmetry; apply Z.ltb_lt; lia).
    destruct (payload !! Z.to_nat i) as [b|] eqn:Hb'; [|reflexivity].
    cbn [mbind option_bind].
    rewrite (u8_small (i + 1)) by (unfold is_u8; lia).
    rewrite IH by (auto using u8_range; lia).
    replace (Z.to_nat (i + 1)) with (S (Z.to_nat i)) by lia.
    destruct (nibble_sum payload (seq (S (Z.to_nat i)) m)) as [s|];
      [|reflexivity].
    cbn [mbind option_bind].
    replace (i + 1 + Z.of_nat m) with (i + Z.of_nat (S m)) by lia.
    f_equal. unfold u8. rewrite shiftr4. change 0xF with 15. rewrite land15.
    rewrite Zplus_mod_idemp_l. f_equal. lia.
Qed.

Lemma nibble_sum_outside payload idx i :
  In i idx -> (length payload <= i)%nat -> nibble_sum payload idx = None.
Proof.
  intros Hin Hi. induction idx as [|j idx IH]; [destruct Hin|].
  cbn [nibble_sum]. destruct Hin as [-> | Hin].
  - rewrite lookup_ge_None_2 by assumption. reflexivity.
  - rewrite (IH Hin). destruct (payload !! j); reflexivity.
Qed.

Lemma nibble_sum_inside payload idx :
  Forall (fun i => (i < length payload)%nat) idx ->
  is_Some (nibble_sum payload idx).
Proof.
  induction 1 as [|i idx Hi _ IH]; cbn [nibble_sum]; [eauto|].
  destruct (lookup_lt_is_Some_2 payload i Hi) as [b ->].
  destruct IH as [s ->]. cbn. eauto.
Qed.

(** The value of [(28 + payloadNibbles*4) / 8]. *)
Lemma oregon_bound n :
  0 <= n -> Z.quot (28 + n * 4) 8 = (28 + 4 * n) / 8.
Proof. intros. rewrite Z.quot_div_nonneg by lia. f_equal. lia. Qed.

(** Agreement on every byte list, for the counts at which the
    [uint8_t] counter does not wrap. *)
Lemma oregon_checksum_v3_even payload n :
  0 <= n -> (28 + 4 * n) / 8 <= 255 ->
  oregon_checksum_v3 payload n = simpleChecksum_even payload n.
Proof.
  intros Hn Hbound.
  unfold oregon_checksum_v3, simpleChecksum_even, simple_checksum.
  destruct (payload !! 3%nat) as [b3|]; [|reflexivity].
  cbn [mbind option_bind]. rewrite oregon_bound by assumption.
  set (stop := (28 + 4 * n) / 8) in *.
  change 0xF with 15. rewrite land15.
  assert (Hseed : is_u8 (b3 mod 16))
    by (pose proof (low_nibble_range b3); unfold is_u8; lia).
  assert (Hloop :
    oregon_loop u8_loop_fuel payload stop 4 (b3 mod 16)
    = (body ← nibble_sum payload (seq 4 (Z.to_nat (stop - 4)));
       Some (u8 (b3 mod 16 + body)))).
  { destruct (Z_le_gt_dec stop 4) as [Hle|Hgt].
    - unfold u8_loop_fuel. rewrite oregon_loop_exit by assumption.
      replace (Z.to_nat (stop - 4)) with 0%nat by lia.
      cbn. rewrite Z.add_0_r, u8_small by assumption. reflexivity.
    - unfold u8_loop_fuel.
      replace 257%nat
        with (Z.to_nat (stop - 4) + S (256 - Z.to_nat (stop - 4)))%nat by lia.
      rewrite oregon_loop_sum by (auto; lia).
      change (Z.to_nat 4) with 4%nat.
      destruct (nibble_sum payload (seq 4 (Z.to_nat (stop - 4)))) as [s|];
        [|reflexivity].
      rewrite oregon_loop_exit by lia. reflexivity. }
  rewrite Hloop.
  destruct (nibble_sum payload (seq 4 (Z.to_nat (stop - 4)))) as [body|];
    [|reflexivity].
  cbn [mbind option_bind].
  rewrite Z.rem_mod_nonneg by lia. rewrite <- Zeven_mod.
  destruct (Z.even n).
  - replace (stop <? 0) with false
      by (symmetry; apply Z.ltb_ge; subst stop; apply Z.div_pos; lia).
    destruct (payload !! Z.to_nat stop) as [b|]; [|reflexivity].
    cbn [mbind option_bind]. rewrite shiftr4.
    rewrite swap_return_swap_nibbles by apply u8_range.
    do 2 f_equal. unfold u8. rewrite Zplus_mod_idemp_l. reflexivity.
  - cbn [mbind option_bind].
    rewrite swap_return_swap_nibbles by apply u8_range.
    do 2 f_equal. unfold u8. f_equal. lia.
Qed.

(** On a 13-byte buffer a window of 20 nibbles or more leaves the
    buffer: neither side has a result. *)
Lemma oregon_window_outside payload n :
  length payload = V3_TX_BYTES -> 20 <= n ->
  oregon_checksum_v3 payload n = None /\ simpleChecksum_even payload n = None.
Proof.
  intros Hlen Hn. unfold V3_TX_BYTES in Hlen.
  assert (Hstop : 13 <= (28 + 4 * n) / 8)
    by (Z.div_mod_to_equations; lia).
  destruct (Z_le_gt_dec ((28 + 4 * n) / 8) 13) as [Hle|Hgt].
  - assert (Heq : (28 + 4 * n) / 8 = 13) by lia.
    assert (Hn20 : n = 20) by (revert Heq; Z.div_mod_to_equations; lia).
    subst n.
    assert (G : simpleChecksum_even payload 20 = None).
    { unfold simpleChecksum_even, simple_checksum.
      destruct (payload !! 3%nat); [|reflexivity]. cbn [mbind option_bind].
      change ((28 + 4 * 20) / 8) with 13.
      destruct (nibble_sum payload _); [|reflexivity].
      cbn [mbind option_bind Z.even].
      rewrite (lookup_ge_None_2 payload (Z.to_nat 13)) by (rewrite Hlen; lia).
      reflexivity. }
    split; [|exact G].
    rewrite oregon_checksum_v3_even by (vm_compute; congruence). exact G.
  - assert (G : forall c, oregon_loop u8_loop_fuel payload
                            ((28 + 4 * n) / 8) 4 (u8 c) = None).
    { intros c. unfold u8_loop_fuel. change 257%nat with (10 + 247)%nat.
      rewrite oregon_loop_sum by (auto using u8_range; lia).
      rewrite (nibble_sum_outside payload _ 13%nat);
        [reflexivity | apply in_seq; cbn; lia | lia]. }
    split.
    + unfold oregon_checksum_v3.
      destruct (payload !! 3%nat) as [b3|]; [|reflexivity].
      cbn [mbind option_bind]. rewrite oregon_bound by lia.
      change 0xF with 15. rewrite land15.
      replace (b3 mod 16) with (u8 (b3 mod 16))
        by (apply u8_small; pose proof (low_nibble_range b3);
            unfold is_u8; lia).
      rewrite G. reflexivity.
    + unfold simpleChecksum_even, simple_checksum.
      destruct (payload !! 3%nat); [|reflexivity]. cbn [mbind option_bind].
      rewrite (nibble_sum_outside payload _ 13%nat);
        [reflexivity | apply in_seq; lia | lia].
Qed.

Lemma oregon_window_inside payload n :
  length payload = V3_TX_BYTES -> 0 <= n <= 19 ->
  is_Some (simpleChecksum_even payload n).
Proof.
  intros Hlen Hn. unfold V3_TX_BYTES in Hlen.
  unfold simpleChecksum_even, simple_checksum.
  assert (Hstop : 0 <= (28 + 4 * n) / 8 <= 13)
    by (Z.div_mod_to_equations; lia).
  destruct (lookup_lt_is_Some_2 payload 3%nat) as [b3 ->]; [lia|].
  cbn [mbind option_bind].
  destruct (nibble_sum_inside payload
              (seq 4 (Z.to_nat ((28 + 4 * n) / 8 - 4)))) as [body ->].
  { apply Forall_forall. intros i Hi. apply elem_of_seq in Hi. lia. }
  cbn [mbind option_bind].
  destruct (Z.even n) eqn:He; [|cbn; eauto].
  assert (Hlt : (28 + 4 * n) / 8 < 13).
  { destruct (Z.eq_dec n 19) as [->|]; [discriminate He|].
    Z.div_mod_to_equations; lia. }
  destruct (lookup_lt_is_Some_2 payload (Z.to_nat ((28 + 4 * n) / 8)))
    as [b ->].
  { lia. }
  cbn. eauto.
Qed.

End OregonLoop.

Ltac solve_buffer :=
  split; [reflexivity
         | repeat (constructor; [unfold is_u8; lia|]); constructor].

Lemma golden_payload_buffer : is_buffer golden_payload.
Proof. solve_buffer. Defined.

Lemma golden_unsealed_buffer : is_buffer golden_unsealed.
Proof. solve_buffer. Defined.

(** ** Claims on the ChecksumEngine *)

(** C3: for every 13-byte buffer and every nibble count (a [uint8_t]),
    [crc8_checksum_v3] equals the reference CRC-8: polynomial 0x07, initial
    value 0, the nibbles at positions 7 .. count+6 XORed in (high nibble for
    an even position, low nibble for an odd one) each followed by four
    shift-and-conditional-XOR rounds, a flush pass of four rounds at
    position count+7, and the nibbles of the result swapped. Both sides
    have no result exactly when the window leaves the buffer; for a count
    of at most 19 the window is inside and the function returns. *)
Theorem crc8_checksum_v3_reference (payload : list Z) (count : Z) :
  is_buffer payload -> 0 <= count < 256 ->
  crc8_checksum_v3 payload count = Reference.crc8 payload (Z.to_nat count)
  /\ (count <= 19 -> is_Some (crc8_checksum_v3 payload count)).
Proof.
  intros Hbuf Hcount.
  destruct (Z_le_gt_dec count 19) as [Hin|Hout].
  - assert (Heq : crc8_checksum_v3 payload count
                  = Reference.crc8 payload (Z.to_nat count))
      by (apply crc8_checksum_v3_crc8; [apply Hbuf | lia]).
    split; [exact Heq|]. intros _. rewrite Heq.
    apply crc8_window_inside; [assumption | lia].
  - destruct (crc8_window_outside payload count Hbuf) as [-> ->]; [lia|].
    split; [reflexivity | lia].
Qed.

Lemma crc8_checksum_v3_reference_witness :
  crc8_checksum_v3 golden_unsealed 15
  = Reference.crc8 golden_unsealed (Z.to_nat 15)
  /\ (15 <= 19 -> is_Some (crc8_checksum_v3 golden_unsealed 15)).
Proof.
  apply (crc8_checksum_v3_reference golden_unsealed 15);
    [exact golden_unsealed_buffer | lia].
Defined.

(** C2, as the specification words it (half byte added for an odd count):
    refuted on the golden vector with count 15, where [oregon_checksum_v3]
    stops after byte 10 and the odd-count reading also adds the high nibble
    of byte 11. *)
Lemma oregon_checksum_v3_odd_count_counterexample :
  is_buffer golden_payload
  /\ oregon_checksum_v3 golden_payload 15 = Some 0xE2
  /\ Reference.simpleChecksum_odd golden_payload 15 = Some 0xC3
  /\ oregon_checksum_v3 golden_payload 15
     <> Reference.simpleChecksum_odd golden_payload 15.
Proof.
  split; [exact golden_payload_buffer|].
  split; [vm_compute; reflexivity|].
  split; [vm_compute; reflexivity|].
  vm_compute. discriminate.
Qed.

(** C2, amended: for every 13-byte buffer and every nibble count (a
    non-negative [int] for which [28 + 4*count] does not overflow),
    [oregon_checksum_v3] seeds with the low nibble of the sync byte, adds
    both nibbles of the bytes 4 .. (28 + 4*count)/8 - 1, adds the high nibble
    of the following byte precisely when the count is even, and swaps the
    nibbles of the sum taken modulo 256. Both sides have no result exactly
    when the window leaves the buffer; for a count of at most 19 the
    function returns. *)
Theorem oregon_checksum_v3_even_count (payload : list Z) (count : Z) :
  is_buffer payload -> 0 <= count -> 28 + count * 4 <= INT_MAX ->
  oregon_checksum_v3 payload count
  = Reference.simpleChecksum_even payload count
  /\ (count <= 19 -> is_Some (oregon_checksum_v3 payload count)).
Proof.
  intros [Hlen Hall] Hcount Hint.
  destruct (Z_le_gt_dec count 19) as [Hin|Hout].
  - assert (Heq : oregon_checksum_v3 payload count
                  = Reference.simpleChecksum_even payload count)
      by (apply oregon_checksum_v3_even;
          [assumption | Z.div_mod_to_equations; lia]).
    split; [exact Heq|]. intros _. rewrite Heq.
    apply oregon_window_inside; [assumption | lia].
  - destruct (oregon_window_outside payload count Hlen) as [-> ->]; [lia|].
    split; [reflexivity | lia].
Qed.

Lemma oregon_checksum_v3_even_count_witness :
  oregon_checksum_v3 golden_unsealed 15
  = Reference.simpleChecksum_even golden_unsealed 15
  /\ (15 <= 19 -> is_Some (oregon_checksum_v3 golden_unsealed 15)).
Proof.
  apply (oregon_checksum_v3_even_count golden_unsealed 15);
    [exact golden_unsealed_buffer | lia | unfold INT_MAX; lia].
Defined.

(** ** The windows read by the two checksums *)

Section Windows.

Import Reference.

Lemma nibble_sum_ext p q idx :
  (forall i, In i idx -> p !! i = q !! i) ->
  nibble_sum p idx = nibble_sum q idx.
Proof.
  induction idx as [|i idx IH]; intros Hagree; [reflexivity|].
  cbn [nibble_sum]. rewrite (Hagree i) by (left; reflexivity).
  rewrite IH by (intros j Hj; apply Hagree; right; exact Hj).
  reflexivity.
Qed.

Lemma crc8_fold_ext p q idx : forall acc,
  (forall i, In i idx -> nibble p i = nibble q i) ->
  fold_left (crc8_absorb p) idx acc = fold_left (crc8_absorb q) idx acc.
Proof.
  induction idx as [|i idx IH]; intros acc Hagree; [reflexivity|].
  cbn [fold_left]. unfold crc8_absorb at 2 4.
  rewrite (Hagree i) by (left; reflexivity).
  apply IH. intros j Hj. apply Hagree. right. exact Hj.
Qed.

(** Equal low nibbles of byte 3 and equal bytes 4 .. 10 give equal
    simple checksums of 15 nibbles. *)
Lemma oregon_window p q :
  nibble p 7 = nibble q 7 ->
  (forall i, (4 <= i <= 10)%nat -> p !! i = q !! i) ->
  oregon_checksum_v3 p 15 = oregon_checksum_v3 q 15.
Proof.
  intros H3 Hbytes.
  rewrite !oregon_checksum_v3_even by (vm_compute; congruence).
  unfold simpleChecksum_even, simple_checksum.
  change ((28 + 4 * 15) / 8) with 11. change (Z.to_nat (11 - 4)) with 7%nat.
  change (Z.even 15) with false. cbv iota.
  rewrite (nibble_sum_ext p q) by (intros i Hi; apply Hbytes; apply in_seq in Hi; lia).
  unfold nibble in H3. change (7 / 2)%nat with 3%nat in H3.
  change (Nat.even 7) with false in H3. cbv iota in H3.
  destruct (p !! 3%nat) as [a|], (q !! 3%nat) as [b|];
    cbn [mbind option_bind] in *; try discriminate; [|reflexivity].
  injection H3 as ->. reflexivity.
Qed.

(** Equal nibbles at the positions 7 .. 21 give equal CRCs of 15
    nibbles. *)
Lemma crc8_window p q :
  Forall is_u8 p -> Forall is_u8 q ->
  (forall i, (7 <= i <= 21)%nat -> nibble p i = nibble q i) ->
  crc8_checksum_v3 p 15 = crc8_checksum_v3 q 15.
Proof.
  intros Hp Hq Hnib.
  rewrite !crc8_checksum_v3_crc8 by (auto; lia).
  unfold crc8.
  rewrite (crc8_fold_ext p q)
    by (intros i Hi; apply Hnib; apply in_seq in Hi;
        change (Z.to_nat 15) with 15%nat in Hi; lia).
  reflexivity.
Qed.

(** A write to a byte outside 3 .. 10 changes no nibble of the window. *)
Lemma nibble_insert p i v k :
  (i < 3 \/ 10 < i)%nat -> (7 <= k <= 21)%nat ->
  nibble (<[i := v]> p) k = nibble p k.
Proof.
  intros Hi Hk. unfold nibble.
  rewrite list_lookup_insert_ne; [reflexivity|].
  assert (3 <= k / 2 <= 10)%nat.
  { split; [apply Nat.div_le_lower_bound; lia|].
    assert (k / 2 < 11)%nat by (apply Nat.Div0.div_lt_upper_bound; lia).
    lia. }
  lia.
Qed.

End Windows.

(** C10: neither checksum reads outside its window. Two 13-byte buffers
    that agree on the low nibble of byte 3 (nibble position 7) and on the
    bytes 4 .. 10 have equal [oregon_checksum_v3] for count 15; two that
    agree on the nibble positions 7 .. 21 have equal [crc8_checksum_v3] for
    count 15; both results exist; and overwriting one of the preamble
    bytes 0 .. 2 or of the checksum bytes 11, 12 changes neither result. *)
Theorem checksums_read_their_window_only (p q : list Z) :
  is_buffer p -> is_buffer q ->
  (Reference.nibble p 7 = Reference.nibble q 7 ->
   (forall i, (4 <= i <= 10)%nat -> p !! i = q !! i) ->
   oregon_checksum_v3 p 15 = oregon_checksum_v3 q 15)
  /\ ((forall i, (7 <= i <= 21)%nat ->
         Reference.nibble p i = Reference.nibble q i) ->
      crc8_checksum_v3 p 15 = crc8_checksum_v3 q 15)
  /\ is_Some (oregon_checksum_v3 p 15)
  /\ is_Some (crc8_checksum_v3 p 15)
  /\ (forall (i : nat) (v : Z),
        (i < 3 \/ 10 < i)%nat -> is_u8 v ->
        oregon_checksum_v3 (<[i := v]> p) 15 = oregon_checksum_v3 p 15
        /\ crc8_checksum_v3 (<[i := v]> p) 15 = crc8_checksum_v3 p 15).
Proof.
  intros [Hlp Hp] [Hlq Hq].
  split; [apply oregon_window|].
  split; [apply crc8_window; assumption|].
  split.
  { rewrite oregon_checksum_v3_even by (vm_compute; congruence).
    apply oregon_window_inside; [assumption | lia]. }
  split.
  { rewrite crc8_checksum_v3_crc8 by (auto; lia).
    apply (crc8_window_inside p 15); [split; assumption | lia]. }
  intros i v Hi Hv. split.
  - apply oregon_window.
    + apply nibble_insert; [assumption | lia].
    + intros j Hj. apply list_lookup_insert_ne. lia.
  - apply crc8_window; [apply Forall_insert; assumption | assumption |].
    intros k Hk. apply nibble_insert; assumption.
Qed.

Lemma checksums_read_their_window_only_witness :
  oregon_checksum_v3 golden_unsealed 15 = oregon_checksum_v3 golden_payload 15
  /\ crc8_checksum_v3 golden_unsealed 15 = crc8_checksum_v3 golden_payload 15
  /\ oregon_checksum_v3 (<[12%nat := 0x73]> golden_unsealed) 15
     = oregon_checksum_v3 golden_unsealed 15.
Proof.
  destruct (checksums_read_their_window_only golden_unsealed golden_payload
              golden_unsealed_buffer golden_payload_buffer)
    as (Hsum & Hcrc & _ & _ & Hwrite).
  split; [|split].
  - apply Hsum; [reflexivity|].
    intros i Hi.
    do 11 (destruct i as [|i]; [reflexivity || lia|]). lia.
  - apply Hcrc. intros i Hi.
    do 22 (destruct i as [|i]; [reflexivity || lia|]). lia.
  - apply (Hwrite 12%nat 0x73); [lia | unfold is_u8; lia].
Defined.

(** ** Claims on the PayloadBuilder *)

(** C1: for rolling code 0x00, temperature -1.5 degrees and humidity 20 %
    (sensor type 0xF824, channel 1 and battery flag 0 are fixed in the
    code) [payload_thgn801] returns the 13 bytes
    FF FF FF AF 82 41 00 05 10 80 20 E2 73, that is, as nibbles: six
    preamble nibbles F, sync A, type F 8 2 4, channel 1, rolling code 0 0,
    flag 0, the BCD digits 5 1 0 of t10 = 15, the sign nibble 8, the BCD
    digits 0 2 of the humidity, a reserved 0, the simple checksum and the
    CRC-8 of the 15-nibble window. *)
Theorem payload_thgn801_golden :
  float_of_tenths (-15) = S754_finite true 0xC00000 (-23)
  /\ t10_of (float_of_tenths (-15)) = Some 15
  /\ payload_thgn801 0x00 (float_of_tenths (-15)) 20 = Some golden_payload
  /\ mapM (Reference.nibble golden_payload) (seq 0 26)
     = Some [0xF; 0xF; 0xF; 0xF; 0xF; 0xF; 0xA; 0xF; 0x8; 0x2; 0x4; 0x1;
             0x0; 0x0; 0x0; 0x5; 0x1; 0x0; 0x8; 0x0; 0x2; 0x0;
             0xE; 0x2; 0x7; 0x3]
  /\ oregon_checksum_v3 golden_unsealed V3_PAYLOAD_NIBBLES = golden_payload !! 11%nat
  /\ crc8_checksum_v3 (<[11%nat := 0xE2]> golden_unsealed) V3_PAYLOAD_NIBBLES
     = golden_payload !! 12%nat.
Proof. repeat split; vm_compute; reflexivity. Qed.

Section RoundTrip.

(** The float nearest to [k / 10] scales and truncates to [|k|], and is
    below zero exactly when [k] is. *)
Lemma t10_of_tenths k :
  -999 <= k <= 999 ->
  t10_of (float_of_tenths k) = Some (Z.abs k)
  /\ fltb (float_of_tenths k) (float_of_Z 0) = (k <? 0).
Proof.
  intros Hk.
  assert (H : tenths_ok (k + 999) = true).
  { apply (forallb_below tenths_ok 1999); [vm_compute; reflexivity | lia]. }
  unfold tenths_ok in H. replace (k + 999 - 999) with k in H by lia.
  apply andb_true_iff in H. destruct H as [Ht Hs].
  apply Bool.eqb_prop in Hs. split; [|exact Hs].
  destruct (t10_of (float_of_tenths k)) as [t|]; [|discriminate].
  apply Z.eqb_eq in Ht. congruence.
Qed.

(** With the window inside the buffer the CRC loop returns, whatever
    the bytes are. *)
Lemma crc8_loop_defined payload n m : forall fuel i crc,
  0 <= i -> i + Z.of_nat m = n + 7 -> n + 8 <= 255 ->
  (Z.to_nat (n + 6) < 2 * length payload)%nat ->
  is_Some (crc8_loop (m + S (S fuel)) payload n i crc).
Proof.
  induction m as [|m IH]; intros fuel i crc Hi Hm Hw Hlen.
  - cbn [Nat.add crc8_loop].
    replace (i <=? n + 7) with true by (symmetry; apply Z.leb_le; lia).
    replace (i <? n + 7) with false by (symmetry; apply Z.ltb_ge; lia).
    cbn [mbind option_bind].
    replace (u8 (i + 1) <=? n + 7) with false; [eauto|].
    symmetry. apply Z.leb_gt. rewrite u8_small by (unfold is_u8; lia). lia.
  - cbn [Nat.add crc8_loop].
    replace (i <=? n + 7) with true by (symmetry; apply Z.leb_le; lia).
    replace (i <? n + 7) with true by (symmetry; apply Z.ltb_lt; lia).
    destruct (lookup_lt_is_Some_2 payload (Z.to_nat (Z.quot i 2))) as [b ->].
    { rewrite Z.quot_div_nonneg by lia.
      assert (2 * (i / 2) <= i) by (Z.div_mod_to_equations; lia). lia. }
    cbn [mbind option_bind].
    rewrite (u8_small (i + 1)) by (unfold is_u8; lia).
    destruct (Z.rem i 2 =? 0); cbn [mbind option_bind]; apply IH; lia.
Qed.

Lemma crc8_checksum_v3_defined payload :
  length payload = V3_TX_BYTES ->
  is_Some (crc8_checksum_v3 payload V3_PAYLOAD_NIBBLES).
Proof.
  intros Hlen. unfold crc8_checksum_v3, u8_loop_fuel, V3_PAYLOAD_NIBBLES.
  destruct (crc8_loop_defined payload 15 15 240 7 0) as [c Hc];
    [lia | lia | lia | rewrite Hlen; unfold V3_TX_BYTES; lia |].
  change (15 + S (S 240))%nat with 257%nat in Hc. rewrite Hc. cbn. eauto.
Qed.

Lemma oregon_checksum_v3_defined payload :
  length payload = V3_TX_BYTES ->
  is_Some (oregon_checksum_v3 payload V3_PAYLOAD_NIBBLES).
Proof.
  intros Hlen. unfold V3_PAYLOAD_NIBBLES.
  rewrite oregon_checksum_v3_even by (vm_compute; congruence).
  apply oregon_window_inside; [assumption | lia].
Qed.

(** The bytes 7 .. 10 of the result. *)
Lemma payload_thgn801_data rc t h t10 :
  t10_of t = Some t10 ->
  exists p,
    payload_thgn801 rc t h = Some p
    /\ length p = V3_TX_BYTES
    /\ p !! 7%nat = Some (u8 (Z.lor 0 (Z.land (Z.rem t10 10) 0x0F)))
    /\ p !! 8%nat
       = Some (u8 (Z.lor (Z.shiftl (Z.rem (Z.quot t10 10) 10) 4)
                         (Z.land (Z.quot t10 100) 0x0F)))
    /\ p !! 9%nat
       = Some (u8 (Z.lor (if fltb t (float_of_Z 0) then 0x80 else 0)
                         (Z.land (Z.rem h 10) 0x0F)))
    /\ p !! 10%nat = Some (u8 (Z.shiftl (Z.rem (Z.quot h 10) 10) 4)).
Proof.
  intros Ht. unfold payload_thgn801.
  pose proof oregon_checksum_v3_defined as Hsum.
  pose proof crc8_checksum_v3_defined as Hcrc.
  revert Hsum Hcrc. generalize oregon_checksum_v3, crc8_checksum_v3.
  intros sum crc Hsum Hcrc.
  rewrite Ht. cbn [mbind option_bind].
  cbn [replicate V3_TX_BYTES memset length Nat.min drop app].
  unfold or_at. cbn [alter list_alter insert list_insert].
  match goal with
  | |- context [sum ?l ?n] => destruct (Hsum l eq_refl) as [c1 ->]
  end.
  cbn [mbind option_bind].
  match goal with
  | |- context [crc ?l ?n] => destruct (Hcrc l eq_refl) as [c2 ->]
  end.
  cbn [mbind option_bind].
  eexists. split; [reflexivity|]. repeat split.
Qed.

Lemma temp_digits t : 0 <= t <= 999 -> temp_digits_ok t = true.
Proof.
  intros Ht. apply (forallb_below temp_digits_ok 1000);
    [vm_compute; reflexivity | lia].
Qed.

Lemma hum_digits neg h : 0 <= h <= 99 -> hum_digits_ok neg h = true.
Proof.
  intros Hh. destruct neg;
    (apply (forallb_below (hum_digits_ok _) 100);
     [vm_compute; reflexivity | lia]).
Qed.

End RoundTrip.

(** C4, as stated (humidity up to 100): refuted at humidity 100, whose two
    stored digits are 0 and 0. *)
Lemma payload_thgn801_humidity_100_counterexample :
  exists payload,
    payload_thgn801 0x00 (float_of_tenths (-15)) 100 = Some payload
    /\ decode_reading payload = Some (-15, 0)
    /\ decode_reading payload <> Some (-15, 100).
Proof.
  eexists. split; [vm_compute; reflexivity|].
  split; [vm_compute; reflexivity | vm_compute; discriminate].
Qed.

(** C4, amended: for every temperature of [k] tenths of a degree with
    -999 <= k <= 999 (as the float nearest to k/10), every humidity in
    [0, 99] and every rolling code, [payload_thgn801] returns a payload
    whose bytes 7 .. 10 decode to exactly that temperature and humidity. *)
Theorem payload_thgn801_round_trip (rollingCode k hum : Z) :
  -999 <= k <= 999 -> 0 <= hum <= 99 ->
  exists payload,
    payload_thgn801 rollingCode (float_of_tenths k) hum = Some payload
    /\ decode_reading payload = Some (k, hum).
Proof.
  intros Hk Hh.
  destruct (t10_of_tenths k Hk) as [Ht Hs].
  destruct (payload_thgn801_data rollingCode _ hum _ Ht)
    as (p & Hp & _ & H7 & H8 & H9 & H10).
  exists p. split; [exact Hp|].
  unfold decode_reading. rewrite H7, H8, H9, H10, Hs.
  cbn [mbind option_bind].
  pose proof (temp_digits (Z.abs k) ltac:(lia)) as Hd.
  pose proof (hum_digits (k <? 0) hum Hh) as He.
  unfold temp_digits_ok in Hd. unfold hum_digits_ok in He.
  apply Z.eqb_eq in Hd. apply andb_true_iff in He. destruct He as [Hb Hm].
  apply Bool.eqb_prop in Hb. apply Z.eqb_eq in Hm.
  rewrite Hd, Hb, Hm. f_equal. f_equal.
  destruct (Z.ltb_spec k 0); lia.
Qed.

Lemma payload_thgn801_round_trip_witness :
  exists payload,
    payload_thgn801 0x00 (float_of_tenths (-15)) 20 = Some payload
    /\ decode_reading payload = Some (-15, 20).
Proof. apply (payload_thgn801_round_trip 0x00 (-15) 20); lia. Defined.

(** ** BitModulator *)

Section Modulator.

Lemma pulse_on_us_eq : pulse_on_us = Some 402.
Proof. vm_compute. reflexivity. Qed.

Lemma u32_ltb_0 z : (u32 z <? 0) = false.
Proof. apply Z.ltb_ge. apply u32_range. Qed.

Lemma same_statics_refl w : same_statics w w.
Proof. repeat split. Qed.

Lemma same_statics_trans w1 w2 w3 :
  same_statics w1 w2 -> same_statics w2 w3 -> same_statics w1 w3.
Proof.
  unfold same_statics. intros H12 H23.
  repeat match goal with H : _ /\ _ |- _ => destruct H end.
  repeat split; congruence.
Qed.

(** One pass of the loop: the deadline advances by one bit period, the
    delay is the 32-bit difference to the clock, and the pin shows the
    bit selected by the next mask. *)
Lemma manchester_bit_run txByte bitMask w t :
  txMicros w = Some t ->
  let t' := u32 (t + V3_PULSE_LENGHT_US * 2) in
  let now' := u32 (micros_src w (S (micros_calls w))) in
  exists w',
    manchester_bit txByte bitMask w = Some (next_bitMask bitMask, w')
    /\ txMicros w' = Some t'
    /\ micros_calls w' = S (S (micros_calls w))
    /\ millis_calls w' = millis_calls w
    /\ trace w' = trace w ++ bit_events txByte bitMask t' now'
    /\ same_statics w w'.
Proof.
  intros Ht t' now'. unfold manchester_bit.
  cbv [mbind M_bind bind gets lift modify micros digitalWrite
       delayMicroseconds emit mret M_ret ret].
  rewrite Ht. rewrite u32_ltb_0. rewrite pulse_on_us_eq.
  eexists. split; [reflexivity|].
  destruct w. cbn. rewrite <- !app_assoc. repeat split.
Qed.

Lemma modulator_run_refl w : modulator_run w w [].
Proof.
  split; [symmetry; apply app_nil_r|]. split; [auto|].
  split; [reflexivity | apply same_statics_refl].
Qed.

Lemma modulator_run_trans w1 w2 w3 ev1 ev2 :
  modulator_run w1 w2 ev1 -> modulator_run w2 w3 ev2 ->
  modulator_run w1 w3 (ev1 ++ ev2).
Proof.
  intros (Ht1 & Hx1 & Hm1 & Hs1) (Ht2 & Hx2 & Hm2 & Hs2).
  split; [rewrite Ht2, Ht1, app_assoc; reflexivity|].
  split; [auto|].
  split; [congruence | eauto using same_statics_trans].
Qed.

Lemma pin_levels_app pin ev1 ev2 :
  pin_levels pin (ev1 ++ ev2) = pin_levels pin ev1 ++ pin_levels pin ev2.
Proof. unfold pin_levels. apply flat_map_app. Qed.

Lemma pin_levels_bit_events txByte bitMask t' now' :
  pin_levels RF433_TX_PIN (bit_events txByte bitMask t' now')
  = mask_levels 1 txByte bitMask.
Proof. reflexivity. Qed.

Lemma manchester_bits_run n : forall txByte bitMask w,
  is_Some (txMicros w) ->
  exists w' ev,
    manchester_bits n txByte bitMask w = Some (tt, w')
    /\ modulator_run w w' ev
    /\ pin_levels RF433_TX_PIN ev = mask_levels n txByte bitMask.
Proof.
  induction n as [|n IH]; intros txByte bitMask w [t Ht].
  - exists w, []. split; [reflexivity|].
    split; [apply modulator_run_refl | reflexivity].
  - destruct (manchester_bit_run txByte bitMask w t Ht)
      as (w1 & Hrun & Htx & _ & Hm & Htr & Hs).
    destruct (IH txByte (next_bitMask bitMask) w1)
      as (w2 & ev & Hrun2 & Hmod & Hlv); [eauto|].
    eexists w2, (_ ++ ev). split.
    + cbn [manchester_bits]. unfold mbind, M_bind, bind.
      rewrite Hrun. exact Hrun2.
    + split.
      * eapply modulator_run_trans; [|exact Hmod].
        split; [exact Htr|]. split; [eauto|]. split; assumption.
      * rewrite pin_levels_app, Hlv, pin_levels_bit_events. reflexivity.
Qed.

Lemma init_txMicros_run w :
  exists t w',
    init_txMicros w = Some (t, w')
    /\ modulator_run w w' []
    /\ is_Some (txMicros w').
Proof.
  unfold init_txMicros.
  cbv [mbind M_bind bind gets modify micros mret M_ret ret].
  destruct (txMicros w) as [t|] eqn:Ht.
  - exists t, w. split; [reflexivity|].
    split; [apply modulator_run_refl | eauto].
  - eexists _, _. split; [reflexivity|].
    destruct w. cbn. split; [|eauto].
    split; [symmetry; apply app_nil_r|].
    split; [eauto|]. repeat split.
Qed.

(** A call of [manchester_encode_v3]: it returns, and writes to the pin
    the sixteen levels of the eight masks. *)
Lemma manchester_encode_v3_run txByte w :
  exists w' ev,
    manchester_encode_v3 txByte w = Some (tt, w')
    /\ modulator_run w w' ev
    /\ pin_levels RF433_TX_PIN ev = mask_levels 8 txByte 0.
Proof.
  destruct (init_txMicros_run w) as (t & w1 & Hinit & Hmod1 & Hx).
  destruct (manchester_bits_run 8 txByte 0 w1 Hx)
    as (w2 & ev & Hrun & Hmod2 & Hlv).
  exists w2, ([] ++ ev). split.
  - unfold manchester_encode_v3, mbind, M_bind, bind.
    rewrite Hinit. exact Hrun.
  - split; [eapply modulator_run_trans; eassumption | exact Hlv].
Qed.

(** The loop of [send_data_v3] over bytes that are inside the memory. *)
Lemma encode_from_run payload count : forall i w,
  (i + count <= length payload)%nat ->
  exists w' ev,
    encode_from payload i count w = Some (tt, w')
    /\ modulator_run w w' ev
    /\ pin_levels RF433_TX_PIN ev
       = flat_map (fun b => mask_levels 8 b 0) (take count (drop i payload)).
Proof.
  induction count as [|count IH]; intros i w Hlen.
  - exists w, []. split; [reflexivity|].
    split; [apply modulator_run_refl | reflexivity].
  - destruct (lookup_lt_is_Some_2 payload i) as [b Hb]; [lia|].
    destruct (manchester_encode_v3_run b w) as (w1 & ev1 & Hrun1 & Hmod1 & Hlv1).
    destruct (IH (S i) w1) as (w2 & ev2 & Hrun2 & Hmod2 & Hlv2); [lia|].
    exists w2, (ev1 ++ ev2). split.
    + cbn [encode_from]. unfold mbind, M_bind, bind, lift.
      rewrite Hb, Hrun1. exact Hrun2.
    + split; [eapply modulator_run_trans; eassumption|].
      rewrite pin_levels_app, Hlv1, Hlv2.
      rewrite (drop_S payload b i Hb). reflexivity.
Qed.

(** *** Decoding the transitions *)

Lemma byte_round_trip b :
  is_u8 b ->
  transitions (mask_levels 8 b 0) = Some (wire_bits b)
  /\ bytes_of_bits (wire_bits b) = Some [b].
Proof.
  intros Hb.
  assert (H : byte_round_trip_ok b = true).
  { apply (forallb_below byte_round_trip_ok 256);
      [vm_compute; reflexivity | exact Hb]. }
  unfold byte_round_trip_ok in H.
  destruct (transitions (mask_levels 8 b 0)) as [bits|]; [|discriminate].
  destruct (bytes_of_bits bits) as [[|b' [|? ?]]|] eqn:Hbytes;
    try discriminate.
  apply andb_true_iff in H. destruct H as [Heq Hbits].
  apply Z.eqb_eq in Heq. apply bool_decide_eq_true in Hbits.
  subst. split; [reflexivity | exact Hbytes].
Qed.

Lemma transitions_app lv1 : forall bits1 lv2,
  transitions lv1 = Some bits1 ->
  transitions (lv1 ++ lv2)
  = (bits2 ← transitions lv2; Some (bits1 ++ bits2)).
Proof.
  induction lv1 as [lv1 IH] using (induction_ltof1 _ (@length level)).
  unfold ltof in IH. intros bits1 lv2 H1.
  destruct lv1 as [|a [|b lv1]]; cbn [transitions] in H1.
  - injection H1 as <-. cbn [app]. destruct (transitions lv2); reflexivity.
  - discriminate.
  - cbn [app transitions].
    destruct (transition a b) as [t|]; [|discriminate].
    cbn [mbind option_bind] in *.
    destruct (transitions lv1) as [ts|] eqn:Hts; [|discriminate].
    cbn [mbind option_bind] in H1. injection H1 as <-.
    rewrite (IH lv1 ltac:(cbn; lia) ts lv2 Hts).
    destruct (transitions lv2); reflexivity.
Qed.

Lemma bytes_of_bits_wire b bits :
  is_u8 b ->
  bytes_of_bits (wire_bits b ++ bits)
  = (bs ← bytes_of_bits bits; Some (b :: bs)).
Proof.
  intros Hb. destruct (byte_round_trip b Hb) as [_ H].
  unfold wire_bits in *. cbn [map app bytes_of_bits] in *.
  cbn [mbind option_bind] in H.
  destruct (bytes_of_bits bits); cbn [mbind option_bind]; congruence.
Qed.

(** The levels of a byte sequence decode to the bits of its bytes in wire
    order, and those to the bytes. *)
Lemma levels_round_trip bytes :
  Forall is_u8 bytes ->
  transitions (flat_map (fun b => mask_levels 8 b 0) bytes)
  = Some (flat_map wire_bits bytes)
  /\ bytes_of_bits (flat_map wire_bits bytes) = Some bytes.
Proof.
  induction 1 as [|b bytes Hb _ [IH1 IH2]]; [split; reflexivity|].
  cbn [flat_map]. split.
  - rewrite (transitions_app _ (wire_bits b))
      by (apply byte_round_trip; exact Hb).
    rewrite IH1. reflexivity.
  - rewrite bytes_of_bits_wire by exact Hb. rewrite IH2. reflexivity.
Qed.

End Modulator.

(** C7: for every byte sequence the loop of [manchester_encode_v3] calls
    returns and writes to the RF pin, for each byte, the bits 4, 5, 6, 7 and
    then 0, 1, 2, 3, a 1 as HIGH followed by LOW (on-to-off) and a 0 as LOW
    followed by HIGH (off-to-on); decoding the written transitions, high
    nibble first, gives back the byte sequence. *)
Theorem manchester_round_trip (bytes : list Z) (w : world) :
  Forall is_u8 bytes ->
  exists w' ev,
    encode_from bytes 0 (length bytes) w = Some (tt, w')
    /\ trace w' = trace w ++ ev
    /\ transitions (pin_levels RF433_TX_PIN ev) = Some (flat_map wire_bits bytes)
    /\ demodulate ev = Some bytes.
Proof.
  intros Hbytes.
  destruct (encode_from_run bytes (length bytes) 0 w) as (w' & ev & Hrun & Hmod & Hlv);
    [lia|].
  rewrite drop_0, firstn_all in Hlv.
  destruct (levels_round_trip bytes Hbytes) as [Hbits Hback].
  exists w', ev. split; [exact Hrun|]. split; [apply Hmod|].
  unfold demodulate. rewrite Hlv, Hbits. split; [reflexivity | exact Hback].
Qed.

Lemma manchester_round_trip_witness :
  exists w' ev,
    encode_from golden_payload 0 (length golden_payload)
                (initial_world (fun _ => 0) (fun _ => 0) 0 0)
    = Some (tt, w')
    /\ trace w' = trace (initial_world (fun _ => 0) (fun _ => 0) 0 0) ++ ev
    /\ transitions (pin_levels RF433_TX_PIN ev)
       = Some (flat_map wire_bits golden_payload)
    /\ demodulate ev = Some golden_payload.
Proof.
  apply (manchester_round_trip golden_payload
           (initial_world (fun _ => 0) (fun _ => 0) 0 0)).
  apply golden_payload_buffer.
Defined.

Section SendData.

(** A call of [send_data_v3] on memory that holds a byte [b] at index
    [len]: the closing delay is decided by [b]. *)
Lemma send_data_v3_run payload len w b :
  payload !! len = Some b ->
  exists w' ev,
    send_data_v3 payload len w = Some (tt, w')
    /\ trace w'
       = trace w ++ [DigitalWrite RF433_TX_PIN LOW] ++ ev
         ++ (if Z.land b 0x08 =? 0
             then [DelayMicroseconds V3_PULSE_LENGHT_US] else [])
         ++ [DigitalWrite RF433_TX_PIN LOW]
    /\ pin_levels RF433_TX_PIN ev
       = flat_map (fun b => mask_levels 8 b 0) (take len payload)
    /\ same_statics w w'.
Proof.
  intros Hb. unfold send_data_v3.
  cbv [mbind M_bind bind millis digitalWrite delayMicroseconds emit modify
       lift mret M_ret ret].
  match goal with
  | |- context [encode_from payload 0 len ?W] =>
      destruct (encode_from_run payload len 0 W)
        as (w1 & ev & Hrun & (Htr & _ & _ & Hs) & Hlv)
  end.
  { apply lookup_lt_Some in Hb. lia. }
  rewrite Hrun, Hb.
  exists (set_trace
            (trace w1 ++ (if Z.land b 0x08 =? 0
                          then [DelayMicroseconds V3_PULSE_LENGHT_US] else [])
             ++ [DigitalWrite RF433_TX_PIN LOW]) w1), ev.
  split.
  { destruct (Z.land b 8 =? 0); cbn; [|reflexivity].
    destruct w1. cbn. rewrite <- app_assoc. reflexivity. }
  split.
  { cbn [trace set_trace]. rewrite Htr. destruct w. cbn.
    rewrite <- !app_assoc. reflexivity. }
  split; [rewrite Hlv, drop_0; reflexivity|].
  destruct w, w1. unfold same_statics in *. cbn in *. exact Hs.
Qed.

End SendData.

(** C5 (defect of the code): after the loop of [send_data_v3] the index
    [i] equals [len], so the closing delay is decided by the byte at index
    [len], one past the final byte. The final byte 0x73 of the golden
    payload has bit 3 clear. On the 13-byte array alone the read is outside
    the array. With 0x08 next in memory no delay is appended, with 0x00 the
    delay is appended; and for the one-byte payload 0x08 (bit 3 set)
    followed by 0x00 the delay is appended. *)
Theorem send_data_v3_closing_delay_reads_past_payload :
  golden_payload !! 12%nat = Some 0x73
  /\ Z.land 0x73 0x08 = 0
  /\ send_data_v3 golden_payload 13 idle_world = None
  /\ closing_events (golden_payload ++ [0x08]) 13
     = Some [DelayMicroseconds 402;
             DigitalWrite RF433_TX_PIN HIGH;
             DigitalWrite RF433_TX_PIN LOW]
  /\ closing_events (golden_payload ++ [0x00]) 13
     = Some [DigitalWrite RF433_TX_PIN HIGH;
             DelayMicroseconds V3_PULSE_LENGHT_US;
             DigitalWrite RF433_TX_PIN LOW]
  /\ closing_events [0x08; 0x00] 1
     = Some [DigitalWrite RF433_TX_PIN LOW;
             DelayMicroseconds V3_PULSE_LENGHT_US;
             DigitalWrite RF433_TX_PIN LOW].
Proof. repeat split; vm_compute; reflexivity. Qed.

(** C6 (defect of the code): every pass of the bit loop advances the
    deadline by 2 * 488 microseconds modulo 2^32 and passes the 32-bit
    difference between deadline and clock to [delayMicroseconds]; the
    comparison [txMicros - micros() < 0] is between unsigned values and
    never holds. With the deadline at 1000 and the clock at 1500 the delay
    is the residual 476; with the clock at 5000, past the new deadline
    1976, the delay is 4294964272 = 2^32 - 3024 (62512 as a 16-bit
    [unsigned int]). *)
Theorem manchester_bit_delay_wraps_when_late :
  (forall (txByte bitMask t : Z) (w : world),
     exists w',
       manchester_bit txByte bitMask (set_txMicros (Some t) w)
       = Some (next_bitMask bitMask, w')
       /\ txMicros w' = Some (u32 (t + 2 * 488))
       /\ trace w'
          = trace w
            ++ bit_events txByte bitMask (u32 (t + 2 * 488))
                          (u32 (micros_src w (S (micros_calls w)))))
  /\ bit_outcome (deadline_world 1500)
     = Some (Some 1976,
             [DelayMicroseconds 476;
              DigitalWrite RF433_TX_PIN HIGH;
              DelayMicroseconds 402;
              DigitalWrite RF433_TX_PIN LOW])
  /\ bit_outcome (deadline_world 5000)
     = Some (Some 1976,
             [DelayMicroseconds 4294964272;
              DigitalWrite RF433_TX_PIN HIGH;
              DelayMicroseconds 402;
              DigitalWrite RF433_TX_PIN LOW])
  /\ 4294964272 = 2 ^ 32 - (5000 - 1976)
  /\ 4294964272 mod 2 ^ 16 = 62512.
Proof.
  split.
  - intros txByte bitMask t w.
    destruct (manchester_bit_run txByte bitMask (set_txMicros (Some t) w) t)
      as (w' & Hrun & Htx & _ & _ & Htr & _); [reflexivity|].
    exists w'. split; [exact Hrun|]. split; [exact Htx|].
    rewrite Htr. destruct w. reflexivity.
  - repeat split; vm_compute; reflexivity.
Qed.

(** ** TransmissionScheduler *)

Section Scheduler.

(** The milliseconds since the last second tick, as [loop] computes
    them. *)
Lemma loop_tick_run w :
  let elapsed := u32 (u32 (millis_src w (millis_calls w)) - lastMillis w) in
  exists w',
    loop_tick w = Some (tt, w')
    /\ seconds w' = (if elapsed >? 1000 then u32 (seconds w + 1) else seconds w)
    /\ tx_pending w' = (if elapsed >? 1000 then true else tx_pending w)
    /\ t_temp w' = t_temp w /\ t_hum w' = t_hum w
    /\ lastMillis w'
       = (if elapsed >? 1000 then u32 (millis_src w (S (millis_calls w)))
          else lastMillis w)
    /\ millis_calls w'
       = (if elapsed >? 1000 then S (S (S (millis_calls w)))
          else S (millis_calls w))
    /\ millis_src w' = millis_src w.
Proof.
  intros elapsed. unfold loop_tick.
  cbv [mbind M_bind bind millis gets digitalWrite emit modify mret M_ret ret].
  cbn [lastMillis set_millis_calls]. fold elapsed.
  destruct (elapsed >? 1000); eexists; (split; [reflexivity|]);
    destruct w; repeat split.
Qed.

(** The test-mode policy touches neither the seconds counter nor the time
    of the last tick. *)
Lemma inc_readings_clock w :
  exists w',
    inc_readings w = Some (tt, w')
    /\ seconds w' = seconds w
    /\ lastMillis w' = lastMillis w
    /\ millis_src w' = millis_src w.
Proof.
  unfold inc_readings.
  cbv [mbind M_bind bind gets modify mret M_ret ret].
  cbn [t_temp set_t_temp].
  destruct (fltb (float_of_Z 45) (fadd (t_temp w) (float_lit 1 10)));
    cbn [t_hum set_t_temp set_t_hum];
    destruct (u8 (t_hum w + 1) >? 95);
    eexists; (split; [reflexivity|]); destruct w; repeat split.
Qed.

(** A temperature that lines 156-159 cannot convert leaves no payload. *)
Lemma payload_thgn801_undefined rc t h :
  t10_of t = None -> payload_thgn801 rc t h = None.
Proof. intros Ht. unfold payload_thgn801. rewrite Ht. reflexivity. Qed.

(** Lines 238-270 of [loop], whether a transmission is due or not, leave
    the seconds counter, the time of the last tick and the clock as they
    are. *)
Lemma loop_tx_clock w w' :
  loop_tx w = Some (tt, w') ->
  seconds w' = seconds w
  /\ lastMillis w' = lastMillis w
  /\ millis_src w' = millis_src w.
Proof.
  destruct (tx_due w) eqn:Hdue.
  all: unfold tx_due in Hdue.
  2: { unfold loop_tx. cbv [mbind M_bind bind gets mret M_ret ret].
       rewrite Hdue. intros [= <-]. repeat split. }
  destruct (t10_of (t_temp w)) as [t10|] eqn:Ht.
  - destruct (payload_thgn801_data (rcode w) (t_temp w) (t_hum w) t10 Ht)
      as (p & Hp & Hlen & _).
    assert (Hafter : forall x, (p ++ [x]) !! V3_TX_BYTES = Some x).
    { intros x. rewrite lookup_app_r by lia.
      rewrite Hlen, Nat.sub_diag. reflexivity. }
    unfold loop_tx.
    cbv [mbind M_bind bind gets modify digitalWrite emit millis lift
         mret M_ret ret].
    rewrite Hdue.
    destruct (lastTX w >? 0) eqn:Hlast;
      cbn [lastTX set_tx_pending set_trace set_millis_calls];
      rewrite Hlast; cbv beta iota;
      cbn [rcode t_temp t_hum ram_after_payload
           set_tx_pending set_trace set_millis_calls set_lastTX];
      rewrite Hp;
      match goal with
      | |- context [send_data_v3 ?m ?n ?W] =>
          destruct (send_data_v3_run m n W _ (Hafter _))
            as (w1 & ev & Hrun & _ & _ & Hs)
      end;
      rewrite Hrun;
      destruct (inc_readings_clock w1) as (w2 & Hinc & Hsec & Hlm & Hsrc);
      rewrite Hinc; intros [= <-];
      destruct Hs as (_ & Hsrc1 & _ & Hsec1 & Hlm1 & _);
      cbn in Hsrc1, Hsec1, Hlm1;
      rewrite Hsec, Hlm, Hsrc, Hsec1, Hlm1, Hsrc1; repeat split.
  - pose proof (payload_thgn801_undefined (rcode w) _ (t_hum w) Ht) as Hp.
    unfold loop_tx.
    cbv [mbind M_bind bind gets modify digitalWrite emit millis lift
         mret M_ret ret].
    rewrite Hdue.
    destruct (lastTX w >? 0) eqn:Hlast;
      cbn [lastTX set_tx_pending set_trace set_millis_calls];
      rewrite Hlast; cbv beta iota;
      cbn [rcode t_temp t_hum ram_after_payload
           set_tx_pending set_trace set_millis_calls set_lastTX];
      rewrite Hp; discriminate.
Qed.

End Scheduler.

(** C8, as stated (a tick after exactly 1000 ms): refuted. With the last
    tick at 0 ms and the clock at 1000 ms the elapsed time is 1000 ms, and
    [loop_tick] leaves the seconds counter at 5 and the pending flag
    false. The same on the program's own run, with a clock that reads
    1000 ms: the first call of [loop] finds 1000 ms elapsed since start-up
    and leaves the seconds counter at 0, and the call after it (the first
    one having transmitted and cleared the pending flag) again finds
    1000 ms elapsed and leaves the counter at 0 and the flag false. *)
Lemma loop_tick_exactly_1000_ms_counterexample :
  u32 (u32 (millis_src (tick_world 1000 5) (millis_calls (tick_world 1000 5)))
       - lastMillis (tick_world 1000 5)) = 1000
  /\ (exists w',
       loop_tick (tick_world 1000 5) = Some (tt, w')
       /\ seconds w' = 5
       /\ tx_pending w' = false)
  /\ (let w0 := initial_world (fun _ => 0) (fun _ => 1000) 0 0 in
      u32 (u32 (millis_src w0 (millis_calls w0)) - lastMillis w0) = 1000
      /\ exists w0' w1 w1',
           loop_tick w0 = Some (tt, w0')
           /\ seconds w0 = 0 /\ seconds w0' = 0
           /\ loop w0 = Some (tt, w1)
           /\ u32 (u32 (millis_src w1 (millis_calls w1)) - lastMillis w1)
              = 1000
           /\ seconds w1 = 0 /\ tx_pending w1 = false
           /\ loop_tick w1 = Some (tt, w1')
           /\ seconds w1' = 0 /\ tx_pending w1' = false).
Proof.
  split; [vm_compute; reflexivity|]. split.
  - eexists. split; [vm_compute; reflexivity|]. split; reflexivity.
  - cbv zeta. split; [vm_compute; reflexivity|].
    eexists _, _, _.
    split; [vm_compute; reflexivity|].
    split; [reflexivity|]. split; [reflexivity|].
    split; [vm_compute; reflexivity|].
    split; [vm_compute; reflexivity|].
    split; [reflexivity|]. split; [reflexivity|].
    split; [vm_compute; reflexivity|].
    split; reflexivity.
Qed.

(** C8, amended: in every scheduler step in which more than 1000 ms have
    elapsed since the last second tick (as a 32-bit unsigned difference),
    the tick increments the seconds counter (modulo 2^32) and sets the
    pending flag; in a step in which at most 1000 ms have elapsed the tick
    changes neither. The time of the last second tick is what [lastMillis]
    holds: a tick stores there the clock reading it takes next (the second
    of its three readings), a step without a tick reads the clock once and
    leaves [lastMillis] as it is, and the rest of the step of [loop],
    whether it transmits or not, changes neither [lastMillis] nor the
    seconds counter. So the elapsed time of every step is measured from
    the reading stored by the latest tick, or from 0 before the first. *)
Theorem loop_tick_after_more_than_1000_ms (w : world) :
  let elapsed := u32 (u32 (millis_src w (millis_calls w)) - lastMillis w) in
  exists w',
    loop_tick w = Some (tt, w')
    /\ millis_src w' = millis_src w
    /\ (1000 < elapsed ->
        seconds w' = u32 (seconds w + 1) /\ tx_pending w' = true
        /\ lastMillis w' = u32 (millis_src w (S (millis_calls w)))
        /\ millis_calls w' = S (S (S (millis_calls w))))
    /\ (elapsed <= 1000 ->
        seconds w' = seconds w /\ tx_pending w' = tx_pending w
        /\ lastMillis w' = lastMillis w
        /\ millis_calls w' = S (millis_calls w))
    /\ (forall w'',
        loop w = Some (tt, w'') ->
        seconds w'' = seconds w' /\ lastMillis w'' = lastMillis w'
        /\ millis_src w'' = millis_src w).
Proof.
  intros elapsed.
  destruct (loop_tick_run w)
    as (w' & Hrun & Hs & Hp & _ & _ & Hlm & Hcalls & Hsrc).
  fold elapsed in Hs, Hp, Hlm, Hcalls.
  exists w'. split; [exact Hrun|]. split; [exact Hsrc|].
  split; [|split].
  - intros He.
    replace (elapsed >? 1000) with true in * by (symmetry; apply Z.gtb_gt; lia).
    repeat split; assumption.
  - intros He.
    replace (elapsed >? 1000) with false in *
      by (symmetry; rewrite Z.gtb_ltb; apply Z.ltb_ge; lia).
    repeat split; assumption.
  - intros w'' Hloop.
    unfold loop, mbind, M_bind, bind in Hloop. rewrite Hrun in Hloop.
    destruct (loop_tx_clock w' w'' Hloop) as (Hs2 & Hlm2 & Hsrc2).
    rewrite Hsrc2, Hsrc. repeat split; assumption.
Qed.

Lemma loop_tick_after_more_than_1000_ms_witness :
  exists w',
    loop_tick (tick_world 1001 5) = Some (tt, w')
    /\ (seconds w' = u32 (seconds (tick_world 1001 5) + 1)
        /\ tx_pending w' = true
        /\ lastMillis w'
           = u32 (millis_src (tick_world 1001 5)
                    (S (millis_calls (tick_world 1001 5))))
        /\ millis_calls w' = S (S (S (millis_calls (tick_world 1001 5)))))
    /\ exists w'',
         loop (tick_world 1001 5) = Some (tt, w'')
         /\ seconds w'' = seconds w' /\ lastMillis w'' = lastMillis w'
         /\ millis_src w'' = millis_src (tick_world 1001 5).
Proof.
  destruct (loop_tick_after_more_than_1000_ms (tick_world 1001 5))
    as (w' & Hrun & _ & Hgt & _ & Hloop).
  exists w'. split; [exact Hrun|].
  split; [apply Hgt; vm_compute; reflexivity|].
  eexists. split; [vm_compute; reflexivity|].
  apply Hloop. vm_compute. reflexivity.
Defined.

Section Policy.

Lemma inc_readings_run w :
  exists w',
    inc_readings w = Some (tt, w')
    /\ tx_pending w' = tx_pending w
    /\ t_temp w' = next_temp (t_temp w)
    /\ t_hum w' = (let h := u8 (t_hum w + 1) in if h >? 95 then 30 else h).
Proof.
  unfold inc_readings, next_temp.
  cbv [mbind M_bind bind gets modify mret M_ret ret].
  cbn [t_temp set_t_temp].
  destruct (fltb (float_of_Z 45) (fadd (t_temp w) (float_lit 1 10)));
    cbn [t_hum set_t_temp set_t_hum];
    destruct (u8 (t_hum w + 1) >? 95) eqn:Hh;
    eexists; (split; [reflexivity|]); destruct w; cbn in *;
    rewrite ?Hh; repeat split.
Qed.

Lemma loop_tx_idle w : tx_due w = false -> loop_tx w = Some (tt, w).
Proof.
  unfold tx_due, loop_tx. intros Hdue.
  cbv [mbind M_bind bind gets mret M_ret ret]. rewrite Hdue. reflexivity.
Qed.

(** A due transmission sends the payload and then applies the policy. *)
Lemma loop_tx_run w t10 :
  tx_due w = true -> t10_of (t_temp w) = Some t10 ->
  exists w',
    loop_tx w = Some (tt, w')
    /\ tx_pending w' = false
    /\ t_temp w' = next_temp (t_temp w)
    /\ t_hum w' = (let h := u8 (t_hum w + 1) in if h >? 95 then 30 else h).
Proof.
  unfold tx_due. intros Hdue Ht.
  destruct (payload_thgn801_data (rcode w) (t_temp w) (t_hum w) t10 Ht)
    as (p & Hp & Hlen & _).
  assert (Hafter : forall x, (p ++ [x]) !! V3_TX_BYTES = Some x).
  { intros x. rewrite lookup_app_r by lia.
    rewrite Hlen, Nat.sub_diag. reflexivity. }
  unfold loop_tx.
  cbv [mbind M_bind bind gets modify digitalWrite emit millis lift
       mret M_ret ret].
  rewrite Hdue.
  destruct (lastTX w >? 0) eqn:Hlast;
    cbn [lastTX set_tx_pending set_trace set_millis_calls];
    rewrite Hlast; cbv beta iota;
    cbn [rcode t_temp t_hum ram_after_payload
         set_tx_pending set_trace set_millis_calls set_lastTX];
    rewrite Hp;
    match goal with
    | |- context [send_data_v3 ?m ?n ?W] =>
        destruct (send_data_v3_run m n W _ (Hafter _))
          as (w1 & ev & Hrun & _ & _ & Hs)
    end;
    rewrite Hrun;
    destruct (inc_readings_run w1) as (w2 & Hinc & Hpend & Htemp & Hhum);
    exists w2; (split; [exact Hinc|]);
    destruct Hs as (_ & _ & _ & _ & _ & _ & Hp1 & Ht1 & Hh1 & _);
    cbn in Hp1, Ht1, Hh1;
    rewrite Hpend, Htemp, Hhum, Hp1, Ht1, Hh1; repeat split.
Qed.

End Policy.

(** C9: a step of [loop] in which a transmission is due (the temperature
    being one that the payload can hold, the humidity in [0, 100]) sends
    the payload and then leaves the temperature increased by 0.1, or 19.0
    when the increased value exceeds 45, and the humidity increased by 1,
    or 30 when the increased value exceeds 95; a step without transmission
    changes nothing. In particular 45.0 becomes 19.0 and 95 becomes 30, and
    on the emulator's own run from -1.5 degrees and 20 % the temperature
    is back at 19.0 after 466 transmissions and the humidity at 30 after
    76. *)
Theorem readings_after_transmission (w : world) (t10 : Z) :
  tx_due w = true -> t10_of (t_temp w) = Some t10 -> 0 <= t_hum w <= 100 ->
  (exists w',
     loop_tx w = Some (tt, w')
     /\ t_temp w' = next_temp (t_temp w)
     /\ t_hum w' = next_hum (t_hum w)
     /\ (t_temp w = float_of_Z 45 -> t_temp w' = float_of_Z 19)
     /\ (t_hum w = 95 -> t_hum w' = 30))
  /\ (forall v, tx_due v = false -> loop_tx v = Some (tt, v))
  /\ Nat.iter 466 next_temp (float_of_tenths (-15)) = float_of_Z 19
  /\ Nat.iter 76 next_hum 20 = 30.
Proof.
  intros Hdue Ht Hh.
  split; [|split; [exact loop_tx_idle | split; vm_compute; reflexivity]].
  destruct (loop_tx_run w t10 Hdue Ht) as (w' & Hrun & _ & Htemp & Hhum).
  assert (Hhum' : t_hum w' = next_hum (t_hum w)).
  { rewrite Hhum. unfold next_hum. cbv zeta.
    rewrite u8_small by (unfold is_u8; lia). reflexivity. }
  exists w'. split; [exact Hrun|]. split; [exact Htemp|].
  split; [exact Hhum'|]. split.
  - intros H45. rewrite Htemp, H45. vm_compute. reflexivity.
  - intros H95. rewrite Hhum', H95. reflexivity.
Qed.

Lemma readings_after_transmission_witness :
  exists w',
    loop_tx boundary_world = Some (tt, w')
    /\ t_temp w' = float_of_Z 19
    /\ t_hum w' = 30.
Proof.
  destruct (readings_after_transmission boundary_world 450)
    as [(w' & Hrun & _ & _ & Htemp & Hhum) _];
    [vm_compute; reflexivity | vm_compute; reflexivity
     | vm_compute; split; discriminate |].
  exists w'. split; [exact Hrun|].
  split; [apply Htemp | apply Hhum]; reflexivity.
Defined.

(** * Further properties *)

(** ** PayloadBuilder: shape, validity and wrap-around *)

(** [payload_thgn801] stores the two checksums, computed one after the
    other, into the bytes 11 and 12 of [unsealed_payload]. *)
Lemma payload_thgn801_sealed rc t h t10 :
  t10_of t = Some t10 ->
  exists c1 c2,
    payload_thgn801 rc t h
    = Some (<[12%nat := c2]>
              (<[11%nat := c1]>
                 (unsealed_payload rc t10 (fltb t (float_of_Z 0)) h)))
    /\ oregon_checksum_v3
         (unsealed_payload rc t10 (fltb t (float_of_Z 0)) h)
         V3_PAYLOAD_NIBBLES = Some c1
    /\ crc8_checksum_v3
         (<[11%nat := c1]>
            (unsealed_payload rc t10 (fltb t (float_of_Z 0)) h))
         V3_PAYLOAD_NIBBLES = Some c2.
Proof.
  intros Ht. unfold payload_thgn801, unsealed_payload.
  pose proof oregon_checksum_v3_defined as Hsum.
  pose proof crc8_checksum_v3_defined as Hcrc.
  revert Hsum Hcrc. generalize oregon_checksum_v3, crc8_checksum_v3.
  intros sum crc Hsum Hcrc.
  rewrite Ht. cbn [mbind option_bind].
  cbn [replicate V3_TX_BYTES memset length Nat.min drop app].
  unfold or_at. cbn [alter list_alter insert list_insert].
  change (u8 (Z.lor 160 15)) with 175.
  change (u8 (Z.lor 64 (if V3_CHANNEL >? 15 then 15 else V3_CHANNEL))) with 65.
  match goal with
  | |- context [sum ?l ?n] => destruct (Hsum l eq_refl) as [c1 Hc1]
  end.
  rewrite Hc1. cbn [mbind option_bind].
  match goal with
  | |- context [crc ?l ?n] => destruct (Hcrc l eq_refl) as [c2 Hc2]
  end.
  rewrite Hc2. cbn [mbind option_bind].
  exists c1, c2. rewrite ?Hc1, ?Hc2. repeat split.
Qed.
Lemma oregon_checksum_v3_u8 payload n c :
  oregon_checksum_v3 payload n = Some c -> is_u8 c.
Proof.
  unfold oregon_checksum_v3.
  destruct (payload !! 3%nat); [|discriminate]. cbn [mbind option_bind].
  destruct (oregon_loop _ _ _ _ _); [|discriminate]. cbn [mbind option_bind].
  destruct (Z.rem n 2 =? 0); [destruct (_ <? 0); [discriminate|];
                               destruct (payload !! _); [|discriminate]|];
    cbn [mbind option_bind]; intros [= <-]; apply u8_range.
Qed.

Lemma crc8_checksum_v3_u8 payload n c :
  crc8_checksum_v3 payload n = Some c -> is_u8 c.
Proof.
  unfold crc8_checksum_v3.
  destruct (crc8_loop _ _ _ _ _); [|discriminate].
  cbn [mbind option_bind]. intros [= <-]. apply u8_range.
Qed.

Lemma unsealed_payload_buffer rc t10 neg h :
  is_u8 rc -> is_buffer (unsealed_payload rc t10 neg h).
Proof.
  intros Hrc. split; [reflexivity|]. unfold unsealed_payload.
  repeat (constructor; [first [exact Hrc | apply u8_range | unfold is_u8; lia]|]).
  constructor.
Qed.

(** The finished payload as a buffer, with what its checksum bytes hold. *)
Lemma payload_thgn801_buffer rc t h t10 :
  is_u8 rc -> t10_of t = Some t10 ->
  exists c1 c2,
    let U := unsealed_payload rc t10 (fltb t (float_of_Z 0)) h in
    let P := <[12%nat := c2]> (<[11%nat := c1]> U) in
    payload_thgn801 rc t h = Some P
    /\ is_buffer P
    /\ oregon_checksum_v3 U V3_PAYLOAD_NIBBLES = Some c1
    /\ crc8_checksum_v3 (<[11%nat := c1]> U) V3_PAYLOAD_NIBBLES = Some c2
    /\ (forall k, (7 <= k <= 21)%nat ->
          Reference.nibble P k = Reference.nibble U k)
    /\ (forall i, (i < 11)%nat -> P !! i = U !! i)
    /\ P !! 11%nat = Some c1 /\ P !! 12%nat = Some c2.
Proof.
  intros Hrc Ht.
  destruct (payload_thgn801_sealed rc t h t10 Ht) as (c1 & c2 & HP & H1 & H2).
  exists c1, c2. cbv zeta.
  destruct (unsealed_payload_buffer rc t10 (fltb t (float_of_Z 0)) h Hrc)
    as [Hlen Hall].
  unfold V3_TX_BYTES in Hlen.
  split; [exact HP|]. split.
  { split; [rewrite !length_insert; exact Hlen|].
    apply Forall_insert; [apply Forall_insert|];
      eauto using oregon_checksum_v3_u8, crc8_checksum_v3_u8. }
  split; [exact H1|]. split; [exact H2|]. split.
  { intros k Hk. rewrite !nibble_insert by lia. reflexivity. }
  split.
  { intros i Hi. rewrite !list_lookup_insert_ne by lia. reflexivity. }
  split.
  - rewrite list_lookup_insert_ne by lia.
    apply list_lookup_insert_eq. lia.
  - apply list_lookup_insert_eq. rewrite length_insert. lia.
Qed.

(** X1: for every rolling-code byte, every temperature whose [t10] is
    defined and every humidity, [payload_thgn801] returns exactly 13 bytes,
    each in 0 .. 255, that begin with FF FF FF AF 82 41 and the rolling
    code; the battery-flag nibble 14 and the reserved nibble 21 are 0. *)
Theorem payload_thgn801_frame (rollingCode : Z) (tempC : float) (hum t10 : Z) :
  is_u8 rollingCode -> t10_of tempC = Some t10 ->
  exists payload,
    payload_thgn801 rollingCode tempC hum = Some payload
    /\ is_buffer payload
    /\ take 7 payload = [0xFF; 0xFF; 0xFF; 0xAF; 0x82; 0x41; rollingCode]
    /\ Reference.nibble payload 14 = Some 0
    /\ Reference.nibble payload 21 = Some 0.
Proof.
  intros Hrc Ht.
  destruct (payload_thgn801_buffer rollingCode tempC hum t10 Hrc Ht)
    as (c1 & c2 & HP & Hbuf & _ & _ & Hnib & _).
  eexists. split; [exact HP|]. split; [exact Hbuf|].
  split; [reflexivity|].
  rewrite !Hnib by lia. unfold Reference.nibble, unsealed_payload.
  cbn [lookup list_lookup Nat.div Nat.divmod fst Nat.even mbind option_bind].
  split; f_equal.
  - rewrite Z.lor_0_l. change 0x0F with 15. rewrite land15.
    unfold u8. pose proof (low_nibble_range (Z.rem t10 10)) as Hlow.
    rewrite (Z.mod_small _ 256) by lia. apply Z.div_small. lia.
  - unfold u8. rewrite Z.shiftl_mul_pow2 by lia.
    Z.div_mod_to_equations. lia.
Qed.

Lemma payload_thgn801_frame_witness :
  exists payload,
    payload_thgn801 0x00 (float_of_tenths (-15)) 20 = Some payload
    /\ is_buffer payload
    /\ take 7 payload = [0xFF; 0xFF; 0xFF; 0xAF; 0x82; 0x41; 0x00]
    /\ Reference.nibble payload 14 = Some 0
    /\ Reference.nibble payload 21 = Some 0.
Proof.
  apply (payload_thgn801_frame 0x00 (float_of_tenths (-15)) 20 15);
    [unfold is_u8; lia | vm_compute; reflexivity].
Defined.

(** X2: every payload that [payload_thgn801] returns verifies:
    recomputing [oregon_checksum_v3] and [crc8_checksum_v3] over the
    finished 13 bytes gives the bytes stored at 11 and 12. *)
Theorem payload_thgn801_verifies (rollingCode : Z) (tempC : float) (hum t10 : Z) :
  is_u8 rollingCode -> t10_of tempC = Some t10 ->
  exists payload,
    payload_thgn801 rollingCode tempC hum = Some payload
    /\ oregon_checksum_v3 payload V3_PAYLOAD_NIBBLES = payload !! 11%nat
    /\ crc8_checksum_v3 payload V3_PAYLOAD_NIBBLES = payload !! 12%nat
    /\ is_Some (payload !! 12%nat).
Proof.
  intros Hrc Ht.
  destruct (payload_thgn801_buffer rollingCode tempC hum t10 Hrc Ht)
    as (c1 & c2 & HP & [Hlen Hall] & H1 & H2 & Hnib & Hbytes & H11 & H12).
  cbv zeta in *.
  set (U := unsealed_payload rollingCode t10 (fltb tempC (float_of_Z 0)) hum) in *.
  set (P := <[12%nat := c2]> (<[11%nat := c1]> U)) in *.
  exists P. split; [exact HP|]. rewrite H11, H12.
  split; [|split; [|eauto]].
  - rewrite <- H1. apply oregon_window; [apply Hnib; lia|].
    intros i Hi. apply Hbytes. lia.
  - rewrite <- H2. apply crc8_window.
    + exact Hall.
    + apply Forall_insert;
        [apply unsealed_payload_buffer; exact Hrc
        | eauto using oregon_checksum_v3_u8].
    + intros k Hk. rewrite Hnib by exact Hk.
      rewrite nibble_insert by lia. reflexivity.
Qed.

Lemma payload_thgn801_verifies_witness :
  exists payload,
    payload_thgn801 0x00 (float_of_tenths (-15)) 20 = Some payload
    /\ oregon_checksum_v3 payload V3_PAYLOAD_NIBBLES = payload !! 11%nat
    /\ crc8_checksum_v3 payload V3_PAYLOAD_NIBBLES = payload !! 12%nat
    /\ is_Some (payload !! 12%nat).
Proof.
  apply (payload_thgn801_verifies 0x00 (float_of_tenths (-15)) 20 15);
    [unfold is_u8; lia | vm_compute; reflexivity].
Defined.
Lemma temp_nibbles t : 0 <= t <= 999 -> temp_nibbles_ok t = true.
Proof.
  intros Ht. apply (forallb_below temp_nibbles_ok 1000);
    [vm_compute; reflexivity | lia].
Qed.

Lemma hum_nibbles neg h : is_u8 h -> hum_nibbles_ok neg h = true.
Proof.
  intros Hh. destruct neg;
    (apply (forallb_below (hum_nibbles_ok _) 256);
     [vm_compute; reflexivity | exact Hh]).
Qed.

(** X3: for every temperature of [k] tenths with -999 <= k <= 999 and
    every humidity byte, the data nibbles of the payload are binary-coded
    decimal: the nibbles 15, 16, 17 (temperature) and 19, 20 (humidity) are
    digits 0 .. 9, the sign nibble 18 is 8 for a negative temperature and 0
    otherwise, and the payload reads back as [k] tenths and the humidity
    modulo 100 (a humidity of 100 or more silently loses its hundreds). *)
Theorem payload_thgn801_bcd (rollingCode k hum : Z) :
  is_u8 rollingCode -> -999 <= k <= 999 -> is_u8 hum ->
  exists payload d0 d1 d2 h0 h1,
    payload_thgn801 rollingCode (float_of_tenths k) hum = Some payload
    /\ Reference.nibble payload 15 = Some d0
    /\ Reference.nibble payload 16 = Some d1
    /\ Reference.nibble payload 17 = Some d2
    /\ Reference.nibble payload 18 = Some (if k <? 0 then 8 else 0)
    /\ Reference.nibble payload 19 = Some h0
    /\ Reference.nibble payload 20 = Some h1
    /\ 0 <= d0 <= 9 /\ 0 <= d1 <= 9 /\ 0 <= d2 <= 9
    /\ 0 <= h0 <= 9 /\ 0 <= h1 <= 9
    /\ decode_reading payload = Some (k, hum mod 100).
Proof.
  intros Hrc Hk Hh.
  destruct (t10_of_tenths k Hk) as [Ht Hs].
  destruct (payload_thgn801_buffer rollingCode _ hum _ Hrc Ht)
    as (c1 & c2 & HP & _ & _ & _ & Hnib & Hbytes & _).
  cbv zeta in *. rewrite Hs in *.
  set (P := <[12%nat := c2]> (<[11%nat := c1]> _)) in *.
  pose proof (temp_nibbles (Z.abs k) ltac:(lia)) as Htn.
  pose proof (temp_digits (Z.abs k) ltac:(lia)) as Htd.
  pose proof (hum_nibbles (k <? 0) hum Hh) as Hhn.
  unfold temp_nibbles_ok in Htn. unfold temp_digits_ok in Htd.
  unfold hum_nibbles_ok in Hhn.
  repeat (apply andb_true_iff in Htn; destruct Htn as [Htn ?]).
  repeat (apply andb_true_iff in Hhn; destruct Hhn as [Hhn ?]).
  repeat match goal with
         | H : (_ =? _) = true |- _ => apply Z.eqb_eq in H
         | H : (_ <=? _) = true |- _ => apply Z.leb_le in H
         | H : Bool.eqb _ _ = true |- _ => apply Bool.eqb_prop in H
         end.
  exists P. do 5 eexists.
  split; [exact HP|].
  rewrite !Hnib by lia. unfold Reference.nibble, unsealed_payload.
  cbn [lookup list_lookup Nat.div Nat.divmod fst Nat.even mbind option_bind].
  do 3 (split; [reflexivity|]).
  split; [f_equal; assumption|].
  do 2 (split; [reflexivity|]).
  assert (Hpos : forall x, 0 <= x mod 16)
    by (intros x; apply Z.mod_pos_bound; lia).
  assert (Hdiv : forall x, 0 <= u8 x / 16)
    by (intros x; apply Z.div_pos; [apply u8_range | lia]).
  do 5 (split; [split; [first [apply Hpos | apply Hdiv] | assumption]|]).
  unfold decode_reading. rewrite !Hbytes by lia. unfold unsealed_payload.
  cbn [lookup list_lookup mbind option_bind].
  match goal with H : Z.testbit _ 7 = _ |- _ => rewrite H end.
  f_equal. f_equal; [|assumption].
  rewrite Htd. destruct (Z.ltb_spec k 0); lia.
Qed.

Lemma payload_thgn801_bcd_witness :
  exists payload d0 d1 d2 h0 h1,
    payload_thgn801 0x00 (float_of_tenths (-15)) 120 = Some payload
    /\ Reference.nibble payload 15 = Some d0
    /\ Reference.nibble payload 16 = Some d1
    /\ Reference.nibble payload 17 = Some d2
    /\ Reference.nibble payload 18 = Some (if -15 <? 0 then 8 else 0)
    /\ Reference.nibble payload 19 = Some h0
    /\ Reference.nibble payload 20 = Some h1
    /\ 0 <= d0 <= 9 /\ 0 <= d1 <= 9 /\ 0 <= d2 <= 9
    /\ 0 <= h0 <= 9 /\ 0 <= h1 <= 9
    /\ decode_reading payload = Some (-15, 120 mod 100).
Proof.
  apply (payload_thgn801_bcd 0x00 (-15) 120); unfold is_u8; lia.
Defined.
(** ** ChecksumEngine: error detection and window bounds *)

Section Detection.

Import Reference.

Lemma crc8_rounds_inj a b :
  is_u8 a -> is_u8 b -> crc8_rounds a = crc8_rounds b -> a = b.
Proof.
  intros Ha Hb Heq.
  assert (H : crc8_rounds_distinct a = true).
  { apply (forallb_below crc8_rounds_distinct 256);
      [vm_compute; reflexivity | exact Ha]. }
  unfold crc8_rounds_distinct in H.
  pose proof (forallb_below _ 256 H b Hb) as Hab. cbv beta in Hab.
  rewrite Heq, Z.eqb_refl in Hab. cbn [implb] in Hab.
  apply Z.eqb_eq. exact Hab.
Qed.

Lemma swap_nibbles_inj a b :
  is_u8 a -> is_u8 b -> swap_nibbles a = swap_nibbles b -> a = b.
Proof.
  unfold is_u8, swap_nibbles. intros Ha Hb. Z.div_mod_to_equations. lia.
Qed.

Lemma lxor_cancel_l c x y : Z.lxor c x = Z.lxor c y -> x = y.
Proof.
  intros H. apply (f_equal (Z.lxor c)) in H.
  rewrite <- !Z.lxor_assoc, Z.lxor_nilpotent, !Z.lxor_0_l in H. exact H.
Qed.

Lemma lxor_cancel_r a b x : Z.lxor a x = Z.lxor b x -> a = b.
Proof. rewrite !(Z.lxor_comm _ x). apply lxor_cancel_l. Qed.

Lemma crc8_fold_u8 payload idx : forall a r,
  Forall is_u8 payload -> is_u8 a ->
  fold_left (crc8_absorb payload) idx (Some a) = Some r -> is_u8 r.
Proof.
  induction idx as [|i idx IH]; intros a r Hall Ha; cbn [fold_left].
  - intros [= <-]. exact Ha.
  - unfold crc8_absorb at 2. cbn [mbind option_bind].
    destruct (nibble payload i) as [x|] eqn:Hx; cbn [mbind option_bind].
    + apply IH; [exact Hall|].
      apply crc8_rounds_range, lxor_nibble_range; eauto using nibble_range.
    + rewrite crc8_absorb_none. discriminate.
Qed.

(** Once the two states differ, equal nibbles keep them apart. *)
Lemma crc8_fold_distinct p q idx : forall a b,
  Forall is_u8 p -> Forall is_u8 q -> is_u8 a -> is_u8 b -> a <> b ->
  (forall i, In i idx -> nibble p i = nibble q i) ->
  (forall i, In i idx -> (i < 2 * length p)%nat) ->
  exists a' b',
    fold_left (crc8_absorb p) idx (Some a) = Some a'
    /\ fold_left (crc8_absorb q) idx (Some b) = Some b'
    /\ is_u8 a' /\ is_u8 b' /\ a' <> b'.
Proof.
  induction idx as [|i idx IH]; intros a b Hp Hq Ha Hb Hab Hagree Hin.
  - exists a, b. split; [reflexivity|]. split; [reflexivity|]. auto.
  - cbn [fold_left]. unfold crc8_absorb at 2 4. cbn [mbind option_bind].
    destruct (nibble_inside p i) as [x Hx]; [apply Hin; left; reflexivity|].
    rewrite <- (Hagree i) by (left; reflexivity). rewrite Hx.
    cbn [mbind option_bind].
    assert (Hxr : 0 <= x < 16) by eauto using nibble_range.
    apply IH; try assumption.
    + apply crc8_rounds_range, lxor_nibble_range; assumption.
    + apply crc8_rounds_range, lxor_nibble_range; assumption.
    + intros Heq. apply crc8_rounds_inj in Heq;
        [|apply lxor_nibble_range; assumption..].
      apply lxor_cancel_r in Heq. contradiction.
    + intros j Hj. apply Hagree. right. exact Hj.
    + intros j Hj. apply Hin. right. exact Hj.
Qed.

End Detection.

(** X4: the CRC detects every single-nibble error in its window. Two
    13-byte buffers that differ at exactly one nibble position of the
    window 7 .. count+6 (count at most 19) have different
    [crc8_checksum_v3]. *)
Theorem crc8_checksum_v3_detects_nibble (p q : list Z) (count : Z) (k : nat) :
  is_buffer p -> is_buffer q -> 0 <= count <= 19 ->
  (7 <= k < 7 + Z.to_nat count)%nat ->
  Reference.nibble p k <> Reference.nibble q k ->
  (forall i, (7 <= i < 7 + Z.to_nat count)%nat -> i <> k ->
     Reference.nibble p i = Reference.nibble q i) ->
  crc8_checksum_v3 p count <> crc8_checksum_v3 q count.
Proof.
  intros [Hlp Hp] [Hlq Hq] Hn Hk Hdiff Hsame.
  unfold V3_TX_BYTES in *.
  rewrite !crc8_checksum_v3_crc8 by (auto; lia).
  unfold Reference.crc8.
  set (N := Z.to_nat count) in *.
  replace N with ((k - 7) + S (N - (k - 7) - 1))%nat by lia.
  rewrite seq_app. cbn [seq]. replace (7 + (k - 7))%nat with k by lia.
  rewrite !fold_left_app. cbn [fold_left].
  rewrite <- (crc8_fold_ext p q (seq 7 (k - 7)))
    by (intros i Hi; apply in_seq in Hi; apply Hsame; lia).
  destruct (crc8_fold_inside p (seq 7 (k - 7)) 0) as [c Hc].
  { apply Forall_forall. intros i Hi. apply elem_of_seq in Hi. lia. }
  rewrite Hc.
  assert (Hcr : is_u8 c)
    by (eapply crc8_fold_u8; [exact Hp | | exact Hc]; unfold is_u8; lia).
  unfold Reference.crc8_absorb at 2 4. cbn [mbind option_bind].
  destruct (nibble_inside p k) as [x Hx]; [lia|].
  destruct (nibble_inside q k) as [y Hy]; [lia|].
  rewrite Hx, Hy in *. cbn [mbind option_bind].
  assert (Hxr : 0 <= x < 16) by eauto using nibble_range.
  assert (Hyr : 0 <= y < 16) by eauto using nibble_range.
  destruct (crc8_fold_distinct p q (seq (S k) (N - (k - 7) - 1))
              (Reference.crc8_rounds (Z.lxor c x))
              (Reference.crc8_rounds (Z.lxor c y)))
    as (a' & b' & Ha & Hb & Har & Hbr & Hab); try assumption.
  - apply crc8_rounds_range, lxor_nibble_range; assumption.
  - apply crc8_rounds_range, lxor_nibble_range; assumption.
  - intros Heq. apply crc8_rounds_inj in Heq;
      [|apply lxor_nibble_range; assumption..].
    apply lxor_cancel_l in Heq. congruence.
  - intros i Hi. apply in_seq in Hi. apply Hsame; lia.
  - intros i Hi. apply in_seq in Hi. lia.
  - rewrite Ha, Hb. cbn [mbind option_bind]. intros [= Heq].
    apply swap_nibbles_inj in Heq; [|apply crc8_rounds_range; assumption..].
    apply crc8_rounds_inj in Heq; [|assumption..]. contradiction.
Qed.

Lemma crc8_checksum_v3_detects_nibble_witness :
  crc8_checksum_v3 golden_payload 15
  <> crc8_checksum_v3 (<[7%nat := 0x06]> golden_payload) 15.
Proof.
  apply (crc8_checksum_v3_detects_nibble
           golden_payload (<[7%nat := 0x06]> golden_payload) 15 15).
  - exact golden_payload_buffer.
  - solve_buffer.
  - lia.
  - cbn. lia.
  - vm_compute. discriminate.
  - intros i Hi Hne. change (Z.to_nat 15) with 15%nat in Hi.
    do 22 (destruct i as [|i]; [reflexivity || lia|]). lia.
Defined.
Section NibbleTotals.

Import Reference.

Lemma nibble_even payload a :
  nibble payload (2 * a) = (b ← payload !! a; Some (b / 16)).
Proof.
  unfold nibble.
  replace (2 * a / 2)%nat with a
    by (apply (Nat.div_unique _ 2 a 0); lia).
  rewrite Nat.even_even. reflexivity.
Qed.

Lemma nibble_odd payload a :
  nibble payload (S (2 * a)) = (b ← payload !! a; Some (b mod 16)).
Proof.
  unfold nibble.
  replace (S (2 * a) / 2)%nat with a
    by (apply (Nat.div_unique _ 2 a 1); lia).
  replace (S (2 * a)) with (2 * a + 1)%nat by lia.
  rewrite Nat.even_odd. reflexivity.
Qed.

Lemma nibble_7 payload :
  nibble payload 7 = (b ← payload !! 3%nat; Some (b mod 16)).
Proof. exact (nibble_odd payload 3). Qed.

(** Both nibbles of the bytes [a .. a + m - 1] are the nibbles at the
    positions [2a .. 2a + 2m - 1]. *)
Lemma nibble_sum_total payload m : forall a,
  nibble_sum payload (seq a m) = nibble_total payload (seq (2 * a) (2 * m)).
Proof.
  induction m as [|m IH]; intros a; [reflexivity|].
  replace (2 * S m)%nat with (S (S (2 * m))) by lia.
  cbn [seq nibble_sum nibble_total].
  rewrite nibble_even, nibble_odd, IH.
  replace (2 * S a)%nat with (S (S (2 * a))) by lia.
  destruct (payload !! a) as [b|]; [|reflexivity].
  cbn [mbind option_bind].
  destruct (nibble_total payload _) as [s|]; [|reflexivity].
  cbn [mbind option_bind]. f_equal. lia.
Qed.

Lemma nibble_total_app payload idx1 idx2 :
  nibble_total payload (idx1 ++ idx2)
  = (a ← nibble_total payload idx1;
     b ← nibble_total payload idx2;
     Some (a + b)).
Proof.
  induction idx1 as [|i idx1 IH]; cbn [app nibble_total].
  - cbn [mbind option_bind].
    destruct (nibble_total payload idx2); reflexivity.
  - rewrite IH. destruct (nibble payload i); [|reflexivity].
    cbn [mbind option_bind].
    destruct (nibble_total payload idx1); [|reflexivity].
    cbn [mbind option_bind].
    destruct (nibble_total payload idx2); [|reflexivity].
    cbn [mbind option_bind]. f_equal. lia.
Qed.

Lemma nibble_total_ext p q idx :
  (forall i, In i idx -> nibble p i = nibble q i) ->
  nibble_total p idx = nibble_total q idx.
Proof.
  induction idx as [|i idx IH]; intros Hagree; [reflexivity|].
  cbn [nibble_total]. rewrite (Hagree i) by (left; reflexivity).
  rewrite IH by (intros j Hj; apply Hagree; right; exact Hj).
  reflexivity.
Qed.

Lemma nibble_total_inside payload idx :
  (forall i, In i idx -> (i < 2 * length payload)%nat) ->
  is_Some (nibble_total payload idx).
Proof.
  induction idx as [|i idx IH]; intros Hin; cbn [nibble_total]; [eauto|].
  destruct (nibble_inside payload i) as [x ->]; [apply Hin; left; reflexivity|].
  destruct IH as [s ->]; [intros j Hj; apply Hin; right; exact Hj|].
  cbn. eauto.
Qed.

Lemma nibble_total_outside payload idx i :
  In i idx -> (2 * length payload <= i)%nat ->
  nibble_total payload idx = None.
Proof.
  intros Hin Hi. induction idx as [|j idx IH]; [destruct Hin|].
  cbn [nibble_total]. destruct Hin as [-> | Hin].
  - rewrite nibble_outside by assumption. reflexivity.
  - rewrite (IH Hin). destruct (nibble payload j); reflexivity.
Qed.

(** The simple checksum is the swapped sum, modulo 256, of exactly
    [count] nibbles: those at the positions 7 .. count+6. *)
Lemma oregon_checksum_v3_total payload n :
  1 <= n -> (28 + 4 * n) / 8 <= 255 ->
  oregon_checksum_v3 payload n
  = (s ← nibble_total payload (seq 7 (Z.to_nat n));
     Some (swap_nibbles (s mod 256))).
Proof.
  intros Hn Hbound.
  rewrite oregon_checksum_v3_even by (assumption || lia).
  unfold simpleChecksum_even, simple_checksum.
  destruct (Z.even n) eqn:Heven.
  - apply Z.even_spec in Heven. destruct Heven as [j ->].
    replace ((28 + 4 * (2 * j)) / 8) with (3 + j)
      by (Z.div_mod_to_equations; lia).
    replace (Z.to_nat (3 + j - 4)) with (Z.to_nat j - 1)%nat by lia.
    replace (Z.to_nat (2 * j))
      with (S (2 * (Z.to_nat j - 1) + 1))%nat by lia.
    replace (Z.to_nat (3 + j)) with (3 + Z.to_nat j)%nat by lia.
    cbn [seq nibble_total]. rewrite seq_app, nibble_total_app.
    cbn [seq nibble_total].
    rewrite nibble_7.
    rewrite (nibble_sum_total payload _ 4). change (2 * 4)%nat with 8%nat.
    replace (8 + 2 * (Z.to_nat j - 1))%nat with (2 * (3 + Z.to_nat j))%nat
      by lia.
    rewrite nibble_even.
    destruct (payload !! 3%nat) as [b3|]; [|reflexivity].
    cbn [mbind option_bind].
    destruct (nibble_total payload _) as [body|]; [|reflexivity].
    cbn [mbind option_bind].
    destruct (payload !! (3 + Z.to_nat j)%nat) as [b|]; [|reflexivity].
    cbn [mbind option_bind]. do 3 f_equal. lia.
  - assert (Hodd : Z.odd n = true) by (rewrite <- Z.negb_even, Heven; reflexivity).
    apply Z.odd_spec in Hodd. destruct Hodd as [j ->].
    replace ((28 + 4 * (2 * j + 1)) / 8) with (4 + j)
      by (Z.div_mod_to_equations; lia).
    replace (Z.to_nat (4 + j - 4)) with (Z.to_nat j) by lia.
    replace (Z.to_nat (2 * j + 1)) with (S (2 * Z.to_nat j))%nat by lia.
    cbn [seq nibble_total].
    rewrite nibble_7.
    rewrite (nibble_sum_total payload _ 4). change (2 * 4)%nat with 8%nat.
    destruct (payload !! 3%nat) as [b3|]; [|reflexivity].
    cbn [mbind option_bind].
    destruct (nibble_total payload _) as [body|]; [|reflexivity].
    cbn [mbind option_bind]. do 3 f_equal. lia.
Qed.

Lemma nibble_total_range payload idx s :
  Forall is_u8 payload -> nibble_total payload idx = Some s ->
  0 <= s <= 15 * Z.of_nat (length idx).
Proof.
  intros Hall. revert s.
  induction idx as [|i idx IH]; intros s; cbn [nibble_total length].
  - intros [= <-]. lia.
  - destruct (nibble payload i) as [x|] eqn:Hx; [|discriminate].
    cbn [mbind option_bind].
    destruct (nibble_total payload idx) as [t|]; [|discriminate].
    cbn [mbind option_bind]. intros [= <-].
    pose proof (nibble_range _ _ _ Hall Hx). pose proof (IH t eq_refl). lia.
Qed.

End NibbleTotals.
(** X5: for a count from 1 to 19, [oregon_checksum_v3] on a 13-byte buffer
    is the nibble-swapped sum, modulo 256, of exactly [count] nibbles: the
    nibbles at the positions 7 .. count+6, for even and for odd counts
    alike. For count 0 it does not return the empty sum: it adds both
    nibbles of byte 3 (positions 6 and 7). *)
Theorem oregon_checksum_v3_sums_window (payload : list Z) (count : Z) :
  length payload = V3_TX_BYTES -> 1 <= count <= 19 ->
  (exists s,
     nibble_total payload (seq 7 (Z.to_nat count)) = Some s
     /\ oregon_checksum_v3 payload count
        = Some (Reference.swap_nibbles (s mod 256)))
  /\ (exists s0,
        nibble_total payload [6; 7]%nat = Some s0
        /\ oregon_checksum_v3 payload 0
           = Some (Reference.swap_nibbles (s0 mod 256))).
Proof.
  intros Hlen Hn. unfold V3_TX_BYTES in Hlen. split.
  - destruct (nibble_total_inside payload (seq 7 (Z.to_nat count))) as [s Hs].
    { intros i Hi. apply in_seq in Hi. lia. }
    exists s. split; [exact Hs|].
    rewrite oregon_checksum_v3_total by (Z.div_mod_to_equations; lia).
    rewrite Hs. reflexivity.
  - rewrite oregon_checksum_v3_even by (vm_compute; congruence).
    unfold Reference.simpleChecksum_even, Reference.simple_checksum.
    cbn [nibble_total]. rewrite nibble_7.
    change 6%nat with (2 * 3)%nat. rewrite nibble_even.
    change ((28 + 4 * 0) / 8) with 3. change (Z.to_nat (3 - 4)) with 0%nat.
    change (Z.to_nat 3) with 3%nat. change (Z.even 0) with true.
    cbn [seq Reference.nibble_sum].
    destruct (lookup_lt_is_Some_2 payload 3%nat) as [b3 ->]; [lia|].
    cbn [mbind option_bind]. eexists. split; [reflexivity|].
    do 3 f_equal. lia.
Qed.

Lemma oregon_checksum_v3_sums_window_witness :
  (exists s,
     nibble_total golden_payload (seq 7 (Z.to_nat 15)) = Some s
     /\ oregon_checksum_v3 golden_payload 15
        = Some (Reference.swap_nibbles (s mod 256)))
  /\ (exists s0,
        nibble_total golden_payload [6; 7]%nat = Some s0
        /\ oregon_checksum_v3 golden_payload 0
           = Some (Reference.swap_nibbles (s0 mod 256))).
Proof.
  apply (oregon_checksum_v3_sums_window golden_payload 15);
    [reflexivity | lia].
Defined.

(** X6: the simple checksum detects every single-nibble error in its
    window. Two 13-byte buffers that differ at exactly one nibble position
    of the window 7 .. count+6 (count from 1 to 19) have different
    [oregon_checksum_v3]. *)
Theorem oregon_checksum_v3_detects_nibble (p q : list Z) (count : Z) (k : nat) :
  is_buffer p -> is_buffer q -> 1 <= count <= 19 ->
  (7 <= k < 7 + Z.to_nat count)%nat ->
  Reference.nibble p k <> Reference.nibble q k ->
  (forall i, (7 <= i < 7 + Z.to_nat count)%nat -> i <> k ->
     Reference.nibble p i = Reference.nibble q i) ->
  oregon_checksum_v3 p count <> oregon_checksum_v3 q count.
Proof.
  intros [Hlp Hp] [Hlq Hq] Hn Hk Hdiff Hsame.
  unfold V3_TX_BYTES in *.
  rewrite !oregon_checksum_v3_total by (Z.div_mod_to_equations; lia).
  set (N := Z.to_nat count) in *.
  replace N with ((k - 7) + S (N - (k - 7) - 1))%nat by lia.
  rewrite seq_app. cbn [seq]. replace (7 + (k - 7))%nat with k by lia.
  rewrite !nibble_total_app. cbn [nibble_total].
  rewrite <- (nibble_total_ext p q (seq 7 (k - 7)))
    by (intros i Hi; apply in_seq in Hi; apply Hsame; lia).
  rewrite <- (nibble_total_ext p q (seq (S k) (N - (k - 7) - 1)))
    by (intros i Hi; apply in_seq in Hi; apply Hsame; lia).
  destruct (nibble_total_inside p (seq 7 (k - 7))) as [a Ha];
    [intros i Hi; apply in_seq in Hi; lia|].
  destruct (nibble_total_inside p (seq (S k) (N - (k - 7) - 1))) as [b Hb];
    [intros i Hi; apply in_seq in Hi; lia|].
  destruct (nibble_inside p k) as [x Hx]; [lia|].
  destruct (nibble_inside q k) as [y Hy]; [lia|].
  rewrite Ha, Hb, Hx, Hy in *. cbn [mbind option_bind].
  pose proof (nibble_range _ _ _ Hp Hx) as Hxr.
  pose proof (nibble_range _ _ _ Hq Hy) as Hyr.
  intros [= Heq].
  apply swap_nibbles_inj in Heq;
    [|unfold is_u8; apply Z.mod_pos_bound; lia..].
  assert (x = y) by (revert Heq; Z.div_mod_to_equations; lia).
  congruence.
Qed.

Lemma oregon_checksum_v3_detects_nibble_witness :
  oregon_checksum_v3 golden_payload 15
  <> oregon_checksum_v3 (<[7%nat := 0x06]> golden_payload) 15.
Proof.
  apply (oregon_checksum_v3_detects_nibble
           golden_payload (<[7%nat := 0x06]> golden_payload) 15 15).
  - exact golden_payload_buffer.
  - solve_buffer.
  - lia.
  - cbn. lia.
  - vm_compute. discriminate.
  - intros i Hi Hne. change (Z.to_nat 15) with 15%nat in Hi.
    do 22 (destruct i as [|i]; [reflexivity || lia|]). lia.
Defined.

(** X7: both checksums read exactly the nibbles 7 .. count+6. On a list of
    bytes of any length and for a count from 1 to 247, each of them has a
    result if and only if position count+6 is inside the list; otherwise
    the C code reads outside the buffer. *)
Theorem checksums_defined_iff_window_inside (payload : list Z) (count : Z) :
  Forall is_u8 payload -> 1 <= count <= 247 ->
  (is_Some (crc8_checksum_v3 payload count)
   <-> (Z.to_nat count + 6 < 2 * length payload)%nat)
  /\ (is_Some (oregon_checksum_v3 payload count)
      <-> (Z.to_nat count + 6 < 2 * length payload)%nat).
Proof.
  intros Hall Hn. split.
  - rewrite crc8_checksum_v3_crc8 by (auto; lia). unfold Reference.crc8.
    split.
    + intros [c Hc].
      destruct (Nat.lt_ge_cases (Z.to_nat count + 6) (2 * length payload))
        as [Hin|Hout]; [exact Hin|].
      exfalso. revert Hc.
      replace (Z.to_nat count) with ((Z.to_nat count - 1) + 1)%nat at 1 by lia.
      rewrite seq_app. cbn [seq].
      rewrite crc8_fold_outside by lia. discriminate.
    + intros Hin.
      destruct (crc8_fold_inside payload (seq 7 (Z.to_nat count)) 0)
        as [c ->].
      { apply Forall_forall. intros i Hi. apply elem_of_seq in Hi. lia. }
      cbn. eauto.
  - rewrite oregon_checksum_v3_total by (Z.div_mod_to_equations; lia).
    split.
    + intros [c Hc].
      destruct (Nat.lt_ge_cases (Z.to_nat count + 6) (2 * length payload))
        as [Hin|Hout]; [exact Hin|].
      exfalso. revert Hc.
      rewrite (nibble_total_outside payload _ (Z.to_nat count + 6));
        [discriminate | apply in_seq; lia | lia].
    + intros Hin.
      destruct (nibble_total_inside payload (seq 7 (Z.to_nat count)))
        as [s ->].
      { intros i Hi. apply in_seq in Hi. lia. }
      cbn. eauto.
Qed.

Lemma checksums_defined_iff_window_inside_witness :
  (is_Some (crc8_checksum_v3 [0xFF; 0xFF; 0xFF; 0xAF; 0x82] 3)
   <-> (Z.to_nat 3 + 6 < 2 * length [0xFF; 0xFF; 0xFF; 0xAF; 0x82])%nat)
  /\ (is_Some (oregon_checksum_v3 [0xFF; 0xFF; 0xFF; 0xAF; 0x82] 3)
      <-> (Z.to_nat 3 + 6 < 2 * length [0xFF; 0xFF; 0xFF; 0xAF; 0x82])%nat).
Proof.
  apply (checksums_defined_iff_window_inside [0xFF; 0xFF; 0xFF; 0xAF; 0x82] 3);
    [repeat (constructor; [unfold is_u8; lia|]); constructor | lia].
Defined.
(** ** BitModulator: deadlines and frames *)

Section Frames.

Lemma u32_add_l a b : u32 (u32 a + b) = u32 (a + b).
Proof. unfold u32. apply Zplus_mod_idemp_l. Qed.

Lemma u32_small z : is_u32 z -> u32 z = z.
Proof. unfold is_u32, u32. intros. apply Z.mod_small. lia. Qed.

Lemma u32_is_u32 z : is_u32 (u32 z).
Proof. apply u32_range. Qed.

Lemma rf_event_bit_events txByte bitMask t' now' :
  Forall rf_event (bit_events txByte bitMask t' now').
Proof. unfold bit_events. repeat constructor. Qed.

(** [n] passes of the bit loop: the deadline advances by [n] bit periods
    whatever the clock reads, the clock is read twice a pass, and only the
    RF pin is written. *)
Lemma manchester_bits_deadline n : forall txByte bitMask w t,
  txMicros w = Some t -> is_u32 t ->
  exists w' ev,
    manchester_bits n txByte bitMask w = Some (tt, w')
    /\ trace w' = trace w ++ ev
    /\ Forall rf_event ev
    /\ txMicros w' = Some (u32 (t + 2 * 488 * Z.of_nat n))
    /\ micros_calls w' = (micros_calls w + 2 * n)%nat.
Proof.
  induction n as [|n IH]; intros txByte bitMask w t Ht Hr.
  - exists w, []. split; [reflexivity|].
    split; [symmetry; apply app_nil_r|]. split; [constructor|].
    split; [|lia].
    rewrite Ht. f_equal. rewrite Z.mul_0_r, Z.add_0_r, u32_small; auto.
  - destruct (manchester_bit_run txByte bitMask w t Ht)
      as (w1 & Hrun & Htx & Hc & _ & Htr & _).
    destruct (IH txByte (next_bitMask bitMask) w1 _ Htx (u32_is_u32 _))
      as (w2 & ev & Hrun2 & Htr2 & Hrf & Htx2 & Hc2).
    eexists w2, (_ ++ ev). split.
    + cbn [manchester_bits]. unfold mbind, M_bind, bind.
      rewrite Hrun. exact Hrun2.
    + split; [rewrite Htr2, Htr, app_assoc; reflexivity|].
      split; [apply Forall_app; split;
              [apply rf_event_bit_events | exact Hrf]|].
      split; [|lia].
      rewrite Htx2, u32_add_l. do 2 f_equal. unfold V3_PULSE_LENGHT_US. lia.
Qed.

Lemma init_txMicros_deadline w :
  (forall t, txMicros w = Some t -> is_u32 t) ->
  exists w',
    init_txMicros w = Some (first_deadline w, w')
    /\ trace w' = trace w
    /\ txMicros w' = Some (first_deadline w)
    /\ is_u32 (first_deadline w)
    /\ micros_calls w'
       = (micros_calls w + init_reads w)%nat.
Proof.
  intros Hr. unfold init_txMicros, first_deadline, init_reads.
  cbv [mbind M_bind bind gets modify micros mret M_ret ret].
  destruct (txMicros w) as [t|] eqn:Ht.
  - exists w. split; [reflexivity|]. split; [reflexivity|].
    split; [exact Ht|]. split; [auto | lia].
  - eexists. split; [reflexivity|]. destruct w. cbn.
    split; [reflexivity|]. split; [reflexivity|].
    split; [apply u32_is_u32 | lia].
Qed.

(** A call of [manchester_encode_v3] advances the deadline by eight bit
    periods from [first_deadline]. *)
Lemma manchester_encode_v3_deadline txByte w :
  (forall t, txMicros w = Some t -> is_u32 t) ->
  exists w' ev,
    manchester_encode_v3 txByte w = Some (tt, w')
    /\ trace w' = trace w ++ ev
    /\ Forall rf_event ev
    /\ txMicros w' = Some (u32 (first_deadline w + 2 * 488 * 8))
    /\ micros_calls w'
       = (micros_calls w + 16 + init_reads w)%nat.
Proof.
  intros Hr.
  destruct (init_txMicros_deadline w Hr) as (w1 & Hinit & Htr1 & Htx1 & Hr1 & Hc1).
  destruct (manchester_bits_deadline 8 txByte 0 w1 _ Htx1 Hr1)
    as (w2 & ev & Hrun & Htr2 & Hrf & Htx2 & Hc2).
  exists w2, ev. split.
  - unfold manchester_encode_v3, mbind, M_bind, bind.
    rewrite Hinit. exact Hrun.
  - split; [rewrite Htr2, Htr1; reflexivity|]. split; [exact Hrf|].
    split; [exact Htx2 | lia].
Qed.

Lemma encode_from_deadline payload count : forall i w,
  (i + count <= length payload)%nat -> (1 <= count)%nat ->
  (forall t, txMicros w = Some t -> is_u32 t) ->
  exists w' ev,
    encode_from payload i count w = Some (tt, w')
    /\ trace w' = trace w ++ ev
    /\ Forall rf_event ev
    /\ txMicros w'
       = Some (u32 (first_deadline w + 2 * 488 * 8 * Z.of_nat count))
    /\ micros_calls w'
       = (micros_calls w + 16 * count + init_reads w)%nat.
Proof.
  induction count as [|count IH]; intros i w Hlen Hpos Hr; [lia|].
  destruct (lookup_lt_is_Some_2 payload i) as [b Hb]; [lia|].
  destruct (manchester_encode_v3_deadline b w Hr)
    as (w1 & ev1 & Hrun1 & Htr1 & Hrf1 & Htx1 & Hc1).
  destruct count as [|count].
  - exists w1, ev1. split.
    + cbn [encode_from]. unfold mbind, M_bind, bind, lift.
      rewrite Hb, Hrun1. reflexivity.
    + split; [exact Htr1|]. split; [exact Hrf1|].
      split; [rewrite Htx1; do 2 f_equal; lia | lia].
  - destruct (IH (S i) w1) as (w2 & ev2 & Hrun2 & Htr2 & Hrf2 & Htx2 & Hc2);
      [lia | lia | |].
    { intros t Ht. rewrite Htx1 in Ht. injection Ht as <-. apply u32_is_u32. }
    exists w2, (ev1 ++ ev2). split.
    + cbn [encode_from]. unfold mbind, M_bind, bind, lift.
      rewrite Hb, Hrun1. exact Hrun2.
    + split; [rewrite Htr2, Htr1, app_assoc; reflexivity|].
      split; [apply Forall_app; split; assumption|].
      unfold first_deadline, init_reads in Htx2, Hc2. rewrite Htx1 in Htx2, Hc2.
      split; [|lia].
      rewrite Htx2, u32_add_l. do 2 f_equal. lia.
Qed.

End Frames.
Section SendFrames.

(** A call of [send_data_v3] in full: the events, the levels on the RF
    pin, the deadline and the clock reads. *)
Lemma send_data_v3_detail payload len w b :
  payload !! len = Some b -> (1 <= len)%nat ->
  (forall t, txMicros w = Some t -> is_u32 t) ->
  exists w' ev,
    send_data_v3 payload len w = Some (tt, w')
    /\ trace w' = trace w ++ ev
    /\ Forall rf_event ev
    /\ pin_levels RF433_TX_PIN ev
       = LOW :: flat_map (fun b => mask_levels 8 b 0) (take len payload)
             ++ [LOW]
    /\ txMicros w'
       = Some (u32 (first_deadline w + 2 * 488 * 8 * Z.of_nat len))
    /\ micros_calls w' = (micros_calls w + 16 * len + init_reads w)%nat
    /\ millis_calls w' = S (millis_calls w)
    /\ same_statics w w'.
Proof.
  intros Hb Hlen Hr.
  assert (Hin : (0 + len <= length payload)%nat)
    by (apply lookup_lt_Some in Hb; lia).
  unfold send_data_v3.
  cbv [mbind M_bind bind millis digitalWrite delayMicroseconds emit modify
       lift mret M_ret ret].
  match goal with
  | |- context [encode_from payload 0 len ?W] =>
      destruct (encode_from_run payload len 0 W Hin)
        as (w1 & ev & Hrun & (Htr & _ & Hm & Hs) & Hlv);
      destruct (encode_from_deadline payload len 0 W Hin Hlen)
        as (w1' & ev' & Hrun' & Htr' & Hrf & Htx & Hc)
  end.
  { destruct w. exact Hr. }
  rewrite Hrun in Hrun'. injection Hrun' as <-.
  rewrite Htr in Htr'. apply app_inv_head in Htr'. subst ev'.
  rewrite Hrun, Hb.
  set (tail := (if Z.land b 0x08 =? 0
                then [DelayMicroseconds V3_PULSE_LENGHT_US] else [])
               ++ [DigitalWrite RF433_TX_PIN LOW]).
  exists (set_trace (trace w1 ++ tail) w1),
         ([DigitalWrite RF433_TX_PIN LOW] ++ ev ++ tail).
  split.
  { subst tail. destruct (Z.land b 8 =? 0); cbn; [|reflexivity].
    destruct w1. cbn. rewrite <- app_assoc. reflexivity. }
  split.
  { cbn [trace set_trace]. rewrite Htr. destruct w. cbn.
    rewrite <- !app_assoc. reflexivity. }
  split.
  { apply Forall_app. split; [repeat constructor|].
    apply Forall_app. split; [exact Hrf|].
    subst tail. destruct (Z.land b 8 =? 0); repeat constructor. }
  split.
  { rewrite !pin_levels_app, Hlv, drop_0. subst tail.
    destruct (Z.land b 8 =? 0); reflexivity. }
  destruct w, w1. unfold same_statics, first_deadline, init_reads in *.
  cbn in *. repeat split; try tauto; try lia.
Qed.

End SendFrames.

(** X8: [send_data_v3] keeps absolute deadlines. For a payload of
    [len >= 1] bytes it leaves [txMicros] at the deadline it started from
    plus [len * 8] bit periods of 2 * 488 microseconds (modulo 2^32),
    whatever the clock reads in between, and reads [micros()] sixteen
    times a byte. The static [txMicros] is initialised from the clock only
    on the very first call; every later frame continues from the deadline
    the previous frame left. *)
Theorem send_data_v3_deadline (payload : list Z) (len : nat) (w : world) (b : Z) :
  payload !! len = Some b -> (1 <= len)%nat ->
  (forall t, txMicros w = Some t -> is_u32 t) ->
  exists w',
    send_data_v3 payload len w = Some (tt, w')
    /\ txMicros w'
       = Some (u32 (first_deadline w + 2 * 488 * 8 * Z.of_nat len))
    /\ micros_calls w' = (micros_calls w + 16 * len + init_reads w)%nat
    /\ micros_src w' = micros_src w.
Proof.
  intros Hb Hlen Hr.
  destruct (send_data_v3_detail payload len w b Hb Hlen Hr)
    as (w' & ev & Hrun & _ & _ & _ & Htx & Hc & _ & Hs).
  exists w'. split; [exact Hrun|]. split; [exact Htx|].
  split; [exact Hc | apply Hs].
Qed.

Lemma send_data_v3_deadline_witness :
  exists w',
    send_data_v3 (golden_payload ++ [0x00]) 13 (deadline_world 5000)
    = Some (tt, w')
    /\ txMicros w'
       = Some (u32 (first_deadline (deadline_world 5000)
                    + 2 * 488 * 8 * Z.of_nat 13))
    /\ micros_calls w'
       = (micros_calls (deadline_world 5000) + 16 * 13
          + init_reads (deadline_world 5000))%nat
    /\ micros_src w' = micros_src (deadline_world 5000).
Proof.
  apply (send_data_v3_deadline (golden_payload ++ [0x00]) 13
           (deadline_world 5000) 0x00).
  - reflexivity.
  - lia.
  - intros t Ht. vm_compute in Ht. injection Ht as <-. unfold is_u32. lia.
Defined.

(** X9: [send_data_v3] drives nothing but the RF pin, starts and ends
    with the line LOW, and in between writes a frame whose transitions
    decode to the [len] bytes of the payload. *)
Theorem send_data_v3_frame (payload : list Z) (len : nat) (w : world) (b : Z) :
  payload !! len = Some b -> (1 <= len)%nat ->
  (forall t, txMicros w = Some t -> is_u32 t) ->
  Forall is_u8 (take len payload) ->
  exists w' ev lv,
    send_data_v3 payload len w = Some (tt, w')
    /\ trace w' = trace w ++ ev
    /\ Forall rf_event ev
    /\ pin_levels RF433_TX_PIN ev = LOW :: lv ++ [LOW]
    /\ frame_bytes lv = Some (take len payload).
Proof.
  intros Hb Hlen Hr Hbytes.
  destruct (send_data_v3_detail payload len w b Hb Hlen Hr)
    as (w' & ev & Hrun & Htr & Hrf & Hlv & _).
  destruct (levels_round_trip (take len payload) Hbytes) as [Hbits Hback].
  exists w', ev. eexists.
  split; [exact Hrun|]. split; [exact Htr|]. split; [exact Hrf|].
  split; [exact Hlv|].
  unfold frame_bytes. rewrite Hbits. exact Hback.
Qed.

Lemma send_data_v3_frame_witness :
  exists w' ev lv,
    send_data_v3 (golden_payload ++ [0x00]) 13 idle_world = Some (tt, w')
    /\ trace w' = trace idle_world ++ ev
    /\ Forall rf_event ev
    /\ pin_levels RF433_TX_PIN ev = LOW :: lv ++ [LOW]
    /\ frame_bytes lv = Some (take 13 (golden_payload ++ [0x00])).
Proof.
  apply (send_data_v3_frame (golden_payload ++ [0x00]) 13 idle_world 0x00).
  - reflexivity.
  - lia.
  - intros t Ht. discriminate Ht.
  - apply golden_payload_buffer.
Defined.
(** ** TransmissionScheduler: whole steps of [loop] *)

Section Steps.

Lemma loop_tick_detail w :
  exists w',
    loop_tick w = Some (tt, w')
    /\ seconds w' = seconds_after_tick w
    /\ tx_pending w' = (ticked w || tx_pending w)
    /\ trace w'
       = trace w ++ (if ticked w then [DigitalWrite LED_BUILTIN LOW] else [])
    /\ tick_frame w w'.
Proof.
  unfold loop_tick, seconds_after_tick, ticked, tick_elapsed.
  cbv [mbind M_bind bind millis gets digitalWrite emit modify mret M_ret ret].
  cbn [lastMillis set_millis_calls].
  destruct (_ >? 1000); eexists; (split; [reflexivity|]);
    destruct w; cbn; rewrite ?app_nil_r; repeat split.
Qed.

Lemma take_payload_memory (payload : list Z) (after : Z) :
  length payload = V3_TX_BYTES ->
  take V3_TX_BYTES (payload ++ [after]) = payload
  /\ (payload ++ [after]) !! V3_TX_BYTES = Some after.
Proof.
  intros Hlen. split.
  - rewrite <- Hlen. apply take_app_length.
  - rewrite lookup_app_r by lia. rewrite Hlen, Nat.sub_diag. reflexivity.
Qed.

Lemma inc_readings_detail w :
  exists w',
    inc_readings w = Some (tt, w')
    /\ t_temp w' = next_temp (t_temp w)
    /\ t_hum w' = (let h := u8 (t_hum w + 1) in if h >? 95 then 30 else h)
    /\ trace w' = trace w
    /\ tx_pending w' = tx_pending w
    /\ seconds w' = seconds w
    /\ rcode w' = rcode w
    /\ lastTX w' = lastTX w
    /\ txMicros w' = txMicros w.
Proof.
  unfold inc_readings, next_temp.
  cbv [mbind M_bind bind gets modify mret M_ret ret].
  cbn [t_temp set_t_temp].
  destruct (fltb (float_of_Z 45) (fadd (t_temp w) (float_lit 1 10)));
    cbn [t_hum set_t_temp set_t_hum];
    destruct (u8 (t_hum w + 1) >? 95) eqn:Hh;
    eexists; (split; [reflexivity|]); destruct w; cbn in *;
    rewrite ?Hh; repeat split.
Qed.

(** A due transmission in full. *)
Lemma loop_tx_detail w t10 :
  tx_due w = true -> t10_of (t_temp w) = Some t10 -> is_u8 (rcode w) ->
  (forall t, txMicros w = Some t -> is_u32 t) ->
  exists w' payload ev lv,
    loop_tx w = Some (tt, w')
    /\ payload_thgn801 (rcode w) (t_temp w) (t_hum w) = Some payload
    /\ trace w' = trace w ++ DigitalWrite LED_BUILTIN HIGH :: ev
    /\ Forall rf_event ev
    /\ pin_levels RF433_TX_PIN ev = LOW :: lv ++ [LOW]
    /\ frame_bytes lv = Some payload
    /\ tx_pending w' = false
    /\ seconds w' = seconds w
    /\ rcode w' = rcode w
    /\ (lastTX w = 0 -> lastTX w' = 0)
    /\ (forall t, txMicros w' = Some t -> is_u32 t)
    /\ t_temp w' = next_temp (t_temp w)
    /\ t_hum w' = (let h := u8 (t_hum w + 1) in if h >? 95 then 30 else h).
Proof.
  unfold tx_due. intros Hdue Ht Hrc Hr.
  destruct (payload_thgn801_buffer (rcode w) (t_temp w) (t_hum w) t10 Hrc Ht)
    as (c1 & c2 & Hp & [Hlen Hall] & _).
  cbv zeta in Hp, Hlen, Hall.
  set (p := <[12%nat := c2]> _) in *.
  destruct (take_payload_memory p (ram_after_payload w) Hlen) as [Htake Hafter].
  destruct (levels_round_trip p Hall) as [Hbits Hback].
  assert (Hframe : frame_bytes (flat_map (fun b => mask_levels 8 b 0) p) = Some p)
    by (unfold frame_bytes; rewrite Hbits; exact Hback).
  unfold loop_tx.
  cbv [mbind M_bind bind gets modify digitalWrite emit millis lift
       mret M_ret ret].
  rewrite Hdue.
  destruct (lastTX w >? 0) eqn:Hlast;
    cbn [lastTX set_tx_pending set_trace set_millis_calls];
    rewrite Hlast; cbv beta iota;
    cbn [rcode t_temp t_hum ram_after_payload
         set_tx_pending set_trace set_millis_calls set_lastTX];
    rewrite Hp;
    cbn [rcode t_temp t_hum ram_after_payload
         set_tx_pending set_trace set_millis_calls set_lastTX];
    match goal with
    | |- context [send_data_v3 ?m ?n ?W] =>
        destruct (send_data_v3_detail m n W _ Hafter)
          as (w1 & ev & Hrun & Htr & Hrf & Hlv & Htx & _ & _ & Hs);
          [unfold V3_TX_BYTES; lia | destruct w; exact Hr |]
    end;
    rewrite Hrun;
    destruct (inc_readings_detail w1)
      as (w2 & Hinc & Htemp & Hhum & Htr2 & Hpend & Hsec & Hrc2 & Hl2 & Htx2);
    rewrite Htake in Hlv;
    exists w2, p, ev; eexists;
    (split; [exact Hinc|]); (split; [reflexivity|]);
    destruct Hs as (_ & _ & _ & Hs1 & _ & Hl1 & Hp1 & Ht1 & Hh1 & Hrc1);
    rewrite Htr2, Htr, Hpend, Hsec, Hrc2, Hl2, Htx2, Htemp, Hhum,
      Hs1, Hl1, Hp1, Ht1, Hh1, Hrc1, Htx;
    destruct w; cbn;
    (split; [rewrite <- app_assoc; reflexivity|]);
    (split; [exact Hrf|]); (split; [exact Hlv|]); (split; [exact Hframe|]);
    (split; [reflexivity|]); (split; [reflexivity|]); (split; [reflexivity|]).
  all: split; [|split; [intros t [= <-]; apply u32_is_u32 | split; reflexivity]].
  - cbn in Hlast. intros ->. discriminate Hlast.
  - auto.
Qed.

End Steps.
Section Readings.

Lemma iter_period {A} (f : A -> A) p x :
  Nat.iter p f x = x -> forall q, Nat.iter (q * p) f x = x.
Proof.
  intros Hp q. induction q as [|q IH]; [reflexivity|].
  replace (S q * p)%nat with (q * p + p)%nat by lia.
  rewrite Nat.iter_add, Hp. exact IH.
Qed.

Lemma orbit_tenths_spec steps : forall expect t m,
  orbit_tenths steps expect t = true -> (m < steps)%nat ->
  t10_of (Nat.iter m next_temp t) = Some (Z.abs (expect + Z.of_nat m))
  /\ fltb (Nat.iter m next_temp t) (float_of_Z 0)
     = (expect + Z.of_nat m <? 0).
Proof.
  induction steps as [|steps IH]; intros expect t m Hok Hm; [lia|].
  cbn [orbit_tenths] in Hok. apply andb_true_iff in Hok.
  destruct Hok as [Hhere Hrest].
  destruct m as [|m].
  - cbn [Nat.iter nat_rect]. rewrite Z.add_0_r.
    destruct (t10_of t) as [v|]; [|discriminate].
    apply andb_true_iff in Hhere. destruct Hhere as [Hv Hs].
    apply Z.eqb_eq in Hv. apply Bool.eqb_prop in Hs. subst v. auto.
  - rewrite Nat.iter_succ_r.
    replace (expect + Z.of_nat (S m)) with (expect + 1 + Z.of_nat m) by lia.
    apply IH; [exact Hrest | lia].
Qed.

Lemma first_cycle : Nat.iter 466 next_temp first_temp = float_of_Z 19.
Proof. vm_compute. reflexivity. Qed.

Lemma later_cycles : Nat.iter 261 next_temp (float_of_Z 19) = float_of_Z 19.
Proof. vm_compute. reflexivity. Qed.

(** The reading of transmission [n], however far the run has gone. *)
Lemma temp_at n :
  t10_of (Nat.iter n next_temp first_temp) = Some (Z.abs (tenths_at n))
  /\ fltb (Nat.iter n next_temp first_temp) (float_of_Z 0)
     = (tenths_at n <? 0).
Proof.
  unfold tenths_at. destruct (Nat.ltb_spec n 466) as [Hlt|Hge].
  - replace (Z.of_nat n - 15) with (-15 + Z.of_nat n) by lia.
    apply (orbit_tenths_spec 466); [vm_compute; reflexivity | exact Hlt].
  - set (r := ((n - 466) mod 261)%nat).
    assert (Hr : (r < 261)%nat) by (apply Nat.mod_upper_bound; lia).
    assert (Hn : n = (r + ((n - 466) / 261 * 261 + 466))%nat).
    { pose proof (Nat.div_mod_eq (n - 466) 261). subst r. lia. }
    assert (Hiter : Nat.iter n next_temp first_temp
                    = Nat.iter r next_temp (float_of_Z 19)).
    { rewrite Hn. rewrite !Nat.iter_add, first_cycle.
      rewrite (iter_period _ _ _ later_cycles). reflexivity. }
    rewrite Hiter.
    apply (orbit_tenths_spec 261); [vm_compute; reflexivity | exact Hr].
Qed.

Lemma next_hum_small h : 20 <= h < 95 -> next_hum h = h + 1.
Proof.
  intros Hh. unfold next_hum.
  replace (h + 1 >? 95) with false
    by (symmetry; rewrite Z.gtb_ltb; apply Z.ltb_ge; lia).
  reflexivity.
Qed.

Lemma hum_climb start m :
  20 <= start -> start + Z.of_nat m <= 95 ->
  Nat.iter m next_hum start = start + Z.of_nat m.
Proof.
  intros Hs. induction m as [|m IH]; intros Hm; [cbn; lia|].
  rewrite Nat.iter_succ.
  rewrite IH by lia. rewrite next_hum_small by lia. lia.
Qed.

Lemma hum_first_cycle : Nat.iter 76 next_hum first_hum = 30.
Proof. reflexivity. Qed.

Lemma hum_later_cycles : Nat.iter 66 next_hum 30 = 30.
Proof. reflexivity. Qed.

Lemma humidity_at n : Nat.iter n next_hum first_hum = hum_at n.
Proof.
  unfold hum_at, first_hum. destruct (Nat.ltb_spec n 76) as [Hlt|Hge].
  - apply hum_climb; lia.
  - set (r := ((n - 76) mod 66)%nat).
    assert (Hr : (r < 66)%nat) by (apply Nat.mod_upper_bound; lia).
    assert (Hn : n = (r + ((n - 76) / 66 * 66 + 76))%nat).
    { pose proof (Nat.div_mod_eq (n - 76) 66). subst r. lia. }
    assert (Hiter : Nat.iter n next_hum 20 = Nat.iter r next_hum 30).
    { rewrite Hn. rewrite !Nat.iter_add.
      change (Nat.iter 76 next_hum 20) with 30.
      rewrite (iter_period _ _ _ hum_later_cycles). reflexivity. }
    rewrite Hiter. apply hum_climb; lia.
Qed.

Lemma hum_at_range n : 20 <= hum_at n <= 95.
Proof.
  unfold hum_at. destruct (Nat.ltb_spec n 76).
  - lia.
  - pose proof (Nat.mod_upper_bound (n - 76) 66). lia.
Qed.

Lemma tenths_at_range n : -15 <= tenths_at n <= 450.
Proof.
  unfold tenths_at. destruct (Nat.ltb_spec n 466).
  - lia.
  - pose proof (Nat.mod_upper_bound (n - 466) 261). lia.
Qed.

End Readings.
Section WholeSteps.

(** The payload reads back as the value [t10] with the sign of the
    temperature, and the humidity modulo 100. *)
Lemma payload_thgn801_reads_back rc t h t10 :
  is_u8 rc -> t10_of t = Some t10 -> 0 <= t10 <= 999 -> is_u8 h ->
  exists payload,
    payload_thgn801 rc t h = Some payload
    /\ payload !! 6%nat = Some rc
    /\ decode_reading payload
       = Some (if fltb t (float_of_Z 0) then - t10 else t10, h mod 100).
Proof.
  intros Hrc Ht Hr Hh.
  destruct (payload_thgn801_buffer rc t h t10 Hrc Ht)
    as (c1 & c2 & HP & _ & _ & _ & _ & Hbytes & _).
  cbv zeta in *. eexists. split; [exact HP|].
  split; [rewrite Hbytes by lia; reflexivity|].
  pose proof (temp_digits t10 Hr) as Htd.
  pose proof (hum_nibbles (fltb t (float_of_Z 0)) h Hh) as Hhn.
  unfold temp_digits_ok in Htd. unfold hum_nibbles_ok in Hhn.
  repeat (apply andb_true_iff in Hhn; destruct Hhn as [Hhn ?]).
  repeat match goal with
         | H : (_ =? _) = true |- _ => apply Z.eqb_eq in H
         | H : Bool.eqb _ _ = true |- _ => apply Bool.eqb_prop in H
         end.
  unfold decode_reading. rewrite !Hbytes by lia. unfold unsealed_payload.
  cbn [lookup list_lookup mbind option_bind].
  match goal with H : Z.testbit _ 7 = _ |- _ => rewrite H end.
  rewrite Htd. f_equal. f_equal. assumption.
Qed.

Lemma tx_due_after_tick w w1 :
  seconds w1 = seconds_after_tick w ->
  tx_pending w1 = (ticked w || tx_pending w) ->
  tx_due w1 = due_after_tick w.
Proof. unfold tx_due, due_after_tick. intros -> ->. reflexivity. Qed.

(** A step of [loop] that is not due. *)
Lemma loop_quiet w :
  due_after_tick w = false ->
  exists w',
    loop w = Some (tt, w')
    /\ trace w'
       = trace w ++ (if ticked w then [DigitalWrite LED_BUILTIN LOW] else [])
    /\ seconds w' = seconds_after_tick w
    /\ tx_pending w' = (ticked w || tx_pending w)
    /\ tick_frame w w'.
Proof.
  intros Hdue.
  destruct (loop_tick_detail w) as (w1 & Htick & Hsec & Hpend & Htr & Hfr).
  exists w1. split.
  - unfold loop, mbind, M_bind, bind. rewrite Htick.
    apply loop_tx_idle. rewrite (tx_due_after_tick w w1 Hsec Hpend). exact Hdue.
  - auto.
Qed.

(** A step of [loop] that is due. *)
Lemma loop_due w t10 :
  due_after_tick w = true -> t10_of (t_temp w) = Some t10 ->
  is_u8 (rcode w) -> (forall t, txMicros w = Some t -> is_u32 t) ->
  exists w' payload ev lv,
    loop w = Some (tt, w')
    /\ payload_thgn801 (rcode w) (t_temp w) (t_hum w) = Some payload
    /\ trace w'
       = trace w
         ++ (if ticked w then [DigitalWrite LED_BUILTIN LOW] else [])
         ++ DigitalWrite LED_BUILTIN HIGH :: ev
    /\ Forall rf_event ev
    /\ pin_levels RF433_TX_PIN ev = LOW :: lv ++ [LOW]
    /\ frame_bytes lv = Some payload
    /\ tx_pending w' = false
    /\ seconds w' = seconds_after_tick w
    /\ rcode w' = rcode w
    /\ (lastTX w = 0 -> lastTX w' = 0)
    /\ (forall t, txMicros w' = Some t -> is_u32 t)
    /\ t_temp w' = next_temp (t_temp w)
    /\ t_hum w' = (let h := u8 (t_hum w + 1) in if h >? 95 then 30 else h).
Proof.
  intros Hdue Ht Hrc Hr.
  destruct (loop_tick_detail w) as (w1 & Htick & Hsec & Hpend & Htr & Hfr).
  destruct Hfr as (_ & _ & _ & Hram & Htx & Hl & Htemp & Hhum & Hrc1).
  destruct (loop_tx_detail w1 t10)
    as (w2 & p & ev & lv & Hrun & Hp & Htr2 & Hrf & Hlv & Hfb & Hpend2 & Hsec2
        & Hrc2 & Hl2 & Hr2 & Htemp2 & Hhum2).
  { rewrite (tx_due_after_tick w w1 Hsec Hpend). exact Hdue. }
  { rewrite Htemp. exact Ht. }
  { rewrite Hrc1. exact Hrc. }
  { rewrite Htx. exact Hr. }
  exists w2, p, ev, lv. split.
  { unfold loop, mbind, M_bind, bind. rewrite Htick. exact Hrun. }
  rewrite Htemp, Hhum, Hrc1 in *. rewrite Hl in Hl2.
  split; [exact Hp|].
  split; [rewrite Htr2, Htr, <- app_assoc; reflexivity|].
  split; [exact Hrf|]. split; [exact Hlv|]. split; [exact Hfb|].
  split; [exact Hpend2|]. split; [congruence|]. split; [exact Hrc2|].
  split; [exact Hl2|]. split; [exact Hr2|]. split; assumption.
Qed.

End WholeSteps.
(** X10: on the emulator's own run the transmitted temperature is exact.
    Starting from -1.5 degrees and adding the [float] 0.1 once per
    transmission, the value [t10] stored by [payload_thgn801] for
    transmission number [n] is |tenths_at n| with the sign of
    [tenths_at n]: -1.5, -1.4, ... 45.0, then 19.0, 19.1, ... 45.0 for
    ever; the accumulated rounding error of the additions never shows,
    thanks to the factor 10.001. The humidity of transmission [n] is
    [hum_at n]: 20 .. 95, then 30 .. 95 for ever. *)
Theorem readings_schedule (n : nat) :
  t10_of (Nat.iter n next_temp first_temp) = Some (Z.abs (tenths_at n))
  /\ fltb (Nat.iter n next_temp first_temp) (float_of_Z 0)
     = (tenths_at n <? 0)
  /\ Nat.iter n next_hum first_hum = hum_at n
  /\ -15 <= tenths_at n <= 450
  /\ 20 <= hum_at n <= 95.
Proof.
  destruct (temp_at n) as [Ht Hs].
  split; [exact Ht|]. split; [exact Hs|].
  split; [apply humidity_at|].
  split; [apply tenths_at_range | apply hum_at_range].
Qed.

(** X11: a step of [loop] that is not due (after the tick of this step
    the seconds are no multiple of 53, or nothing is pending) returns,
    writes nothing to the RF pin, and changes neither the readings, the
    rolling code nor the modulator's deadline; at most the LED is switched
    off by the tick. *)
Theorem loop_quiet_step (w : world) :
  due_after_tick w = false ->
  exists w',
    loop w = Some (tt, w')
    /\ trace w'
       = trace w ++ (if ticked w then [DigitalWrite LED_BUILTIN LOW] else [])
    /\ pin_levels RF433_TX_PIN (trace w') = pin_levels RF433_TX_PIN (trace w)
    /\ t_temp w' = t_temp w /\ t_hum w' = t_hum w /\ rcode w' = rcode w
    /\ txMicros w' = txMicros w.
Proof.
  intros Hdue.
  destruct (loop_quiet w Hdue) as (w' & Hrun & Htr & _ & _ & Hfr).
  destruct Hfr as (_ & _ & _ & _ & Htx & _ & Htemp & Hhum & Hrc).
  exists w'. split; [exact Hrun|]. split; [exact Htr|].
  split; [|auto].
  rewrite Htr, pin_levels_app. destruct (ticked w); cbn; apply app_nil_r.
Qed.

Lemma loop_quiet_step_witness :
  exists w',
    loop (tick_world 500 5) = Some (tt, w')
    /\ trace w'
       = trace (tick_world 500 5)
         ++ (if ticked (tick_world 500 5)
             then [DigitalWrite LED_BUILTIN LOW] else [])
    /\ pin_levels RF433_TX_PIN (trace w')
       = pin_levels RF433_TX_PIN (trace (tick_world 500 5))
    /\ t_temp w' = t_temp (tick_world 500 5)
    /\ t_hum w' = t_hum (tick_world 500 5)
    /\ rcode w' = rcode (tick_world 500 5)
    /\ txMicros w' = txMicros (tick_world 500 5).
Proof. apply (loop_quiet_step (tick_world 500 5)). reflexivity. Defined.

Section Invariant.

Lemma loop_invariant_initial us ms after rc :
  is_u8 rc -> loop_invariant 0 (initial_world us ms after rc).
Proof.
  intros Hrc. split; [reflexivity|]. split; [exact Hrc|].
  split; [intros t Ht; discriminate Ht|]. split; reflexivity.
Qed.

Lemma loop_invariant_next_hum n w :
  loop_invariant n w ->
  (let h := u8 (t_hum w + 1) in if h >? 95 then 30 else h)
  = Nat.iter (S n) next_hum first_hum.
Proof.
  intros (_ & _ & _ & _ & Hh). cbv zeta.
  rewrite Nat.iter_succ, <- Hh. unfold next_hum.
  pose proof (hum_at_range n) as Hr. rewrite <- humidity_at, <- Hh in Hr.
  rewrite u8_small by (unfold is_u8; lia). reflexivity.
Qed.

(** A due step sends the reading of transmission [n] and moves on to
    transmission [n + 1]. *)
Lemma loop_due_invariant n w :
  loop_invariant n w -> due_after_tick w = true ->
  exists w' payload ev lv,
    loop w = Some (tt, w')
    /\ trace w'
       = trace w
         ++ (if ticked w then [DigitalWrite LED_BUILTIN LOW] else [])
         ++ DigitalWrite LED_BUILTIN HIGH :: ev
    /\ Forall rf_event ev
    /\ pin_levels RF433_TX_PIN ev = LOW :: lv ++ [LOW]
    /\ frame_bytes lv = Some payload
    /\ payload !! 6%nat = Some (rcode w)
    /\ decode_reading payload = Some (tenths_at n, hum_at n)
    /\ tx_pending w' = false
    /\ rcode w' = rcode w
    /\ loop_invariant (S n) w'.
Proof.
  intros Hinv Hdue.
  pose proof Hinv as (Hl & Hrc & Hr & Htemp & Hhum).
  destruct (temp_at n) as [Ht Hs]. rewrite <- Htemp in Ht, Hs.
  pose proof (tenths_at_range n) as Htr.
  pose proof (hum_at_range n) as Hhr. rewrite <- humidity_at, <- Hhum in Hhr.
  destruct (loop_due w _ Hdue Ht Hrc Hr)
    as (w' & p & ev & lv & Hrun & Hp & Htrace & Hrf & Hlv & Hfb & Hpend & _
        & Hrc' & Hl' & Hr' & Htemp' & Hhum').
  destruct (payload_thgn801_reads_back (rcode w) (t_temp w) (t_hum w) _ Hrc Ht)
    as (p' & Hp' & H6 & Hdec); [lia | unfold is_u8; lia |].
  rewrite Hp in Hp'. injection Hp' as <-.
  exists w', p, ev, lv.
  split; [exact Hrun|]. split; [exact Htrace|]. split; [exact Hrf|].
  split; [exact Hlv|]. split; [exact Hfb|]. split; [exact H6|].
  split.
  { rewrite Hdec, Hs. f_equal. f_equal.
    - destruct (Z.ltb_spec (tenths_at n) 0); lia.
    - rewrite Hhum, humidity_at. apply Z.mod_small.
      pose proof (hum_at_range n). lia. }
  split; [exact Hpend|]. split; [exact Hrc'|].
  split; [auto|]. split; [rewrite Hrc'; exact Hrc|]. split; [exact Hr'|].
  split.
  - rewrite Htemp', Htemp, Nat.iter_succ. reflexivity.
  - rewrite Hhum'. apply loop_invariant_next_hum. exact Hinv.
Qed.

Lemma loop_quiet_invariant n w :
  loop_invariant n w -> due_after_tick w = false ->
  exists w', loop w = Some (tt, w') /\ loop_invariant n w'
             /\ rcode w' = rcode w.
Proof.
  intros (Hl & Hrc & Hr & Htemp & Hhum) Hdue.
  destruct (loop_quiet w Hdue) as (w' & Hrun & _ & _ & _ & Hfr).
  destruct Hfr as (_ & _ & _ & _ & Htx & Hl' & Htemp' & Hhum' & Hrc').
  exists w'. split; [exact Hrun|]. split; [|exact Hrc'].
  unfold loop_invariant. rewrite Hl', Hrc', Htx, Htemp', Hhum'. auto.
Qed.

Lemma loops_invariant steps : forall n w,
  loop_invariant n w ->
  exists n' w',
    loops steps w = Some (tt, w')
    /\ (n <= n' <= n + steps)%nat
    /\ loop_invariant n' w'
    /\ rcode w' = rcode w.
Proof.
  induction steps as [|steps IH]; intros n w Hinv.
  - exists n, w. split; [reflexivity|]. split; [lia | auto].
  - destruct (due_after_tick w) eqn:Hdue.
    + destruct (loop_due_invariant n w Hinv Hdue)
        as (w1 & _ & _ & _ & Hrun & _ & _ & _ & _ & _ & _ & _ & Hrc & Hinv1).
      destruct (IH (S n) w1 Hinv1) as (n' & w' & Hruns & Hn & Hinv' & Hrc').
      exists n', w'. split.
      * cbn [loops]. unfold mbind, M_bind, bind. rewrite Hrun. exact Hruns.
      * split; [lia|]. split; [exact Hinv' | congruence].
    + destruct (loop_quiet_invariant n w Hinv Hdue) as (w1 & Hrun & Hinv1 & Hrc).
      destruct (IH n w1 Hinv1) as (n' & w' & Hruns & Hn & Hinv' & Hrc').
      exists n', w'. split.
      * cbn [loops]. unfold mbind, M_bind, bind. rewrite Hrun. exact Hruns.
      * split; [lia|]. split; [exact Hinv' | congruence].
Qed.

End Invariant.

(** X12: the transmission number [n] of the run carries the reading of
    transmission [n]. In a state reached by the run (rolling code a byte,
    readings those of transmission [n]) a due step of [loop] returns,
    switches the LED on, drives only the RF pin after that, frames the
    payload between two LOW levels, and the frame decodes to a payload
    with the rolling code in byte 6 that reads back as [tenths_at n] and
    [hum_at n]; afterwards nothing is pending and the state is that of
    transmission [n + 1]. *)
Theorem loop_transmits_reading (n : nat) (w : world) :
  loop_invariant n w -> due_after_tick w = true ->
  exists w' payload ev lv,
    loop w = Some (tt, w')
    /\ trace w'
       = trace w
         ++ (if ticked w then [DigitalWrite LED_BUILTIN LOW] else [])
         ++ DigitalWrite LED_BUILTIN HIGH :: ev
    /\ Forall rf_event ev
    /\ pin_levels RF433_TX_PIN ev = LOW :: lv ++ [LOW]
    /\ frame_bytes lv = Some payload
    /\ payload !! 6%nat = Some (rcode w)
    /\ decode_reading payload = Some (tenths_at n, hum_at n)
    /\ tx_pending w' = false
    /\ loop_invariant (S n) w'.
Proof.
  intros Hinv Hdue.
  destruct (loop_due_invariant n w Hinv Hdue)
    as (w' & p & ev & lv & H1 & H2 & H3 & H4 & H5 & H6 & H7 & H8 & _ & H9).
  exists w', p, ev, lv. auto 10.
Qed.

Lemma loop_transmits_reading_witness :
  exists w' payload ev lv,
    loop idle_world = Some (tt, w')
    /\ trace w'
       = trace idle_world
         ++ (if ticked idle_world then [DigitalWrite LED_BUILTIN LOW] else [])
         ++ DigitalWrite LED_BUILTIN HIGH :: ev
    /\ Forall rf_event ev
    /\ pin_levels RF433_TX_PIN ev = LOW :: lv ++ [LOW]
    /\ frame_bytes lv = Some payload
    /\ payload !! 6%nat = Some (rcode idle_world)
    /\ decode_reading payload = Some (tenths_at 0, hum_at 0)
    /\ tx_pending w' = false
    /\ loop_invariant 1 w'.
Proof.
  apply (loop_transmits_reading 0 idle_world).
  - split; [reflexivity|]. split; [unfold is_u8; cbn; lia|].
    split; [intros t Ht; discriminate Ht | split; reflexivity].
  - reflexivity.
Defined.

(** X13: [loop] never gets stuck on its own run. Called any number of
    times from the initial state, for every rolling-code byte and whatever
    the two clocks and the memory behind the buffer hold, it returns; the
    rolling code is unchanged, [lastTX] is still 0 (so the branch that
    reports the time since the last transmission is never entered), and
    the readings are those of some transmission number [n] not above the
    number of calls, hence always in the range the payload can hold. *)
Theorem loops_never_stuck (steps : nat) (us ms : nat -> Z) (after rc : Z) :
  is_u8 rc ->
  exists n w',
    loops steps (initial_world us ms after rc) = Some (tt, w')
    /\ (n <= steps)%nat
    /\ loop_invariant n w'
    /\ rcode w' = rc
    /\ lastTX w' = 0.
Proof.
  intros Hrc.
  destruct (loops_invariant steps 0 (initial_world us ms after rc)
              (loop_invariant_initial us ms after rc Hrc))
    as (n & w' & Hrun & Hn & Hinv & Hrc').
  exists n, w'. split; [exact Hrun|]. split; [lia|].
  split; [exact Hinv|]. split; [exact Hrc' | apply Hinv].
Qed.

Lemma loops_never_stuck_witness :
  exists n w',
    loops 3 (initial_world (fun _ => 0) (fun k => 700 * Z.of_nat k) 0 7)
    = Some (tt, w')
    /\ (n <= 3)%nat
    /\ loop_invariant n w'
    /\ rcode w' = 7
    /\ lastTX w' = 0.
Proof.
  apply (loops_never_stuck 3 (fun _ => 0) (fun k => 700 * Z.of_nat k) 0 7).
  unfold is_u8. lia.
Defined.

(** X14: the second tick tolerates the wrap of the millisecond counter.
    Whatever [lastMillis] is, when the clock reads [lastMillis + d] modulo
    2^32 the elapsed time computed by [loop] is [d], so the tick fires
    exactly when [d] exceeds 1000, also across the overflow. *)
Theorem loop_tick_tolerates_wrap (w : world) (d : Z) :
  0 <= d < 4294967296 ->
  u32 (millis_src w (millis_calls w)) = u32 (lastMillis w + d) ->
  tick_elapsed w = d
  /\ exists w',
       loop_tick w = Some (tt, w')
       /\ seconds w' = (if d >? 1000 then u32 (seconds w + 1) else seconds w)
       /\ tx_pending w' = ((d >? 1000) || tx_pending w).
Proof.
  intros Hd Hclock.
  assert (He : tick_elapsed w = d).
  { unfold tick_elapsed. rewrite Hclock. unfold u32.
    rewrite Zminus_mod_idemp_l.
    replace (lastMillis w + d - lastMillis w) with d by lia.
    apply Z.mod_small. lia. }
  split; [exact He|].
  destruct (loop_tick_detail w) as (w' & Hrun & Hsec & Hpend & _).
  exists w'. split; [exact Hrun|].
  unfold seconds_after_tick, ticked in Hsec, Hpend. rewrite He in Hsec, Hpend.
  split; assumption.
Qed.

Lemma loop_tick_tolerates_wrap_witness :
  tick_elapsed wrapped_world = 1100
  /\ exists w',
       loop_tick wrapped_world = Some (tt, w')
       /\ seconds w'
          = (if 1100 >? 1000 then u32 (seconds wrapped_world + 1)
             else seconds wrapped_world)
       /\ tx_pending w' = ((1100 >? 1000) || tx_pending wrapped_world).
Proof.
  apply (loop_tick_tolerates_wrap wrapped_world 1100);
    [lia | vm_compute; reflexivity].
Defined.
(** X15: [loop] never transmits in two steps in a row. After a due step
    of the run (seconds counter below its 32-bit limit) the next step is
    not due, whatever the clock reads: without a tick nothing is pending,
    and a tick moves the seconds off the multiple of 53. *)
Theorem loop_no_back_to_back (n : nat) (w : world) :
  loop_invariant n w -> due_after_tick w = true ->
  0 <= seconds w < 4294967294 ->
  exists w',
    loop w = Some (tt, w')
    /\ forall v,
         seconds v = seconds w' -> tx_pending v = tx_pending w' ->
         due_after_tick v = false.
Proof.
  intros Hinv Hdue Hsec.
  pose proof Hinv as (_ & Hrc & Hr & Htemp & _).
  destruct (temp_at n) as [Ht _]. rewrite <- Htemp in Ht.
  destruct (loop_due w _ Hdue Ht Hrc Hr)
    as (w' & _ & _ & _ & Hrun & _ & _ & _ & _ & _ & Hpend & Hsec' & _).
  exists w'. split; [exact Hrun|].
  intros v Hv Hp. rewrite Hpend in Hp. rewrite Hsec' in Hv.
  unfold due_after_tick in Hdue |- *.
  apply andb_true_iff in Hdue. destruct Hdue as [Hmult _].
  apply Z.eqb_eq in Hmult.
  assert (Hs : 0 <= seconds_after_tick w < 4294967295).
  { unfold seconds_after_tick. destruct (ticked w); [|lia].
    unfold u32. rewrite Z.mod_small; lia. }
  unfold seconds_after_tick at 1. rewrite Hp, Hv.
  destruct (ticked v); [|apply andb_false_r].
  apply andb_false_iff. left. apply Z.eqb_neq.
  unfold u32. rewrite Z.mod_small by lia.
  unfold V3_TX_INTERVAL_SECS in *.
  rewrite Z.rem_mod_nonneg in * by lia.
  revert Hmult. Z.div_mod_to_equations. lia.
Qed.

Lemma loop_no_back_to_back_witness :
  exists w',
    loop idle_world = Some (tt, w')
    /\ forall v,
         seconds v = seconds w' -> tx_pending v = tx_pending w' ->
         due_after_tick v = false.
Proof.
  apply (loop_no_back_to_back 0 idle_world).
  - split; [reflexivity|]. split; [unfold is_u8; cbn; lia|].
    split; [intros t Ht; discriminate Ht | split; reflexivity].
  - reflexivity.
  - cbn. lia.
Defined.

(** X16: the nibble swap that closes both checksums is an involution on
    bytes: swapping the returned byte once more gives back the plain sum
    (or CRC) that was accumulated. *)
Theorem swap_return_involutive (x : Z) :
  is_u8 x -> swap_return (swap_return x) = x /\ is_u8 (swap_return x).
Proof.
  intros Hx. split; [|apply u8_range].
  assert (H : (swap_return (swap_return x) =? x) = true).
  { apply (forallb_below (fun x => swap_return (swap_return x) =? x) 256);
      [vm_compute; reflexivity | exact Hx]. }
  apply Z.eqb_eq. exact H.
Qed.

Lemma swap_return_involutive_witness :
  swap_return (swap_return 0x2E) = 0x2E /\ is_u8 (swap_return 0x2E).
Proof. apply (swap_return_involutive 0x2E). unfold is_u8. lia. Defined.
